(** * icepack.grid.grid_data: regular-grid data with a missing-data mask

    A shallow embedding of [src/icepack/grid/grid_data.py] and the
    properties of [GridData] stated in the specification.

    Number model.  The Python code computes with numpy [float64] values.
    Here every coordinate and every sample is an exact rational ([Q]):
    rounding, infinities and NaN are outside the model, and equality of two
    computed numbers is equality of rationals ([==], [Qeq]).  The one place
    where the code can meet a non-finite number without assuming anything
    on its input, the division by a zero grid spacing followed by [int()],
    is kept as the error [NonFinite].

    Everything else follows the source: Python's negative indices and
    slice bounds, the order in which the checks are made, numpy's
    [ma.masked] singleton, and the three ways of giving a mask. *)

From Stdlib Require Import List ZArith QArith Qround Bool Lia Lqa.
Import ListNotations.

Local Open Scope Z_scope.

(** ** Errors and results *)

Module Py.

(** The exceptions the module can raise.  The first four are the
    [ValueError]s of [grid_data.py], told apart by their message (the
    specification names them as four error kinds); the others come from
    Python and numpy themselves. *)
Inductive error : Type :=
| OutOfDomain       (* ValueError('Point (X, Y) not contained in the gridded data') *)
| InsufficientData  (* ValueError('Not enough data to interpolate value at (X, Y)') *)
| ShapeMismatch     (* ValueError('Incompatible input array sizes') *)
| UnspecifiedMask   (* ValueError() *)
| IndexError        (* index out of range, from a sequence or an array *)
| NonFinite         (* int() of inf or nan: the grid spacing was zero *)
| MaskError.        (* numpy.ma.MaskError: mask and data not compatible *)

Inductive result (A : Type) : Type :=
| Ok (a : A)
| Err (e : error).

Arguments Ok {A} a.
Arguments Err {A} e.

Definition bind {A B : Type} (r : result A) (k : A -> result B) : result B :=
  match r with
  | Ok a => k a
  | Err e => Err e
  end.

Definition is_ok {A : Type} (r : result A) : bool :=
  match r with Ok _ => true | Err _ => false end.

End Py.
Export Py.

Declare Scope py_scope.
Delimit Scope py_scope with py.
Notation "x <- c ;; k" := (bind c (fun x => k))
  (at level 61, c at next level, right associativity) : py_scope.
Notation "' ( x , y ) <- c ;; k" := (bind c (fun p => let '(x, y) := p in k))
  (at level 61, x name, y name, c at next level, right associativity) : py_scope.
Local Open Scope py_scope.

(** ** Python sequences: indices and slices *)

(** [l[k]] for a sequence of length [n]: a negative [k] counts from the
    end, anything outside [-n .. n-1] raises [IndexError]. *)
Definition norm_index (n : nat) (k : Z) : option nat :=
  if (0 <=? k) && (k <? Z.of_nat n) then Some (Z.to_nat k)
  else if (- Z.of_nat n <=? k) && (k <? 0) then Some (Z.to_nat (k + Z.of_nat n))
  else None.

Definition py_get {A : Type} (l : list A) (k : Z) : result A :=
  match norm_index (length l) k with
  | Some n =>
      match nth_error l n with
      | Some a => Ok a
      | None => Err IndexError
      end
  | None => Err IndexError
  end.

(** A slice bound: a negative bound counts from the end, and the result
    is clamped into [0 .. n].  Slices never raise. *)
Definition norm_bound (n : nat) (k : Z) : nat :=
  let k' := if k <? 0 then k + Z.of_nat n else k in
  Z.to_nat (Z.min (Z.max k' 0) (Z.of_nat n)).

Definition slice_len (n : nat) (a b : Z) : nat :=
  (norm_bound n b - norm_bound n a)%nat.

(** [l[a:b]] *)
Definition py_slice {A : Type} (l : list A) (a b : Z) : list A :=
  firstn (slice_len (length l) a b) (skipn (norm_bound (length l) a) l).

(** Python's [max(a, b)] and [min(a, b)] on numbers: the first argument
    wins a tie. *)
Definition py_max (a b : Q) : Q := if Qle_bool b a then a else b.
Definition py_min (a b : Q) : Q := if Qle_bool a b then a else b.

(** [int(q)]: truncation toward zero. *)
Definition to_int (q : Q) : Z := Z.quot (Qnum q) (Zpos (Qden q)).

(** [int(a / b)] on numpy floats: a zero [b] gives inf or nan, which
    [int] refuses. *)
Definition int_div (a b : Q) : result Z :=
  if Qeq_bool b 0 then Err NonFinite else Ok (to_int (a / b)).

(** ** numpy arrays of two dimensions *)

(** An array of shape [(length rows, ncols)]; every row has [ncols]
    entries ([rectangularb], below).  The number of columns is kept apart from
    the rows because an array can have shape [(0, n)]. *)
Record ndarray (A : Type) : Type := mk_ndarray {
  ncols : nat;
  rows : list (list A)
}.

Arguments mk_ndarray {A} ncols rows.
Arguments ncols {A} n.
Arguments rows {A} n.

Definition nrows {A : Type} (a : ndarray A) : nat := length (rows a).

Definition shape {A : Type} (a : ndarray A) : nat * nat := (nrows a, ncols a).

(** [a[i, j]] *)
Definition nd_get {A : Type} (a : ndarray A) (i j : Z) : result A :=
  match norm_index (nrows a) i, norm_index (ncols a) j with
  | Some r, Some c =>
      match nth_error (rows a) r with
      | Some row =>
          match nth_error row c with
          | Some v => Ok v
          | None => Err IndexError
          end
      | None => Err IndexError
      end
  | _, _ => Err IndexError
  end.

(** [a[i0:i1, j0:j1]] *)
Definition nd_slice {A : Type} (a : ndarray A) (i0 i1 j0 j1 : Z) : ndarray A :=
  {| ncols := slice_len (ncols a) j0 j1;
     rows := map (fun r => py_slice r j0 j1) (py_slice (rows a) i0 i1) |}.

Definition nd_map {A B : Type} (f : A -> B) (a : ndarray A) : ndarray B :=
  {| ncols := ncols a; rows := map (map f) (rows a) |}.

(** ** Masked arrays *)

(** A [numpy.ma.MaskedArray] of numbers: every entry carries its number
    and its mask bit ([true]: the entry is missing). *)
Definition masked_array : Type := ndarray (Q * bool).

(** What indexing a masked array gives: the number, or the singleton
    [ma.masked]. *)
Inductive item : Type :=
| Masked
| Val (v : Q).

Definition item_of (c : Q * bool) : item :=
  if snd c then Masked else Val (fst c).

Definition is_ma_masked (a : item) : bool :=
  match a with Masked => true | Val _ => false end.

(** Arithmetic with [ma.masked] gives [ma.masked]. *)
Definition item_op (f : Q -> Q -> Q) (a b : item) : item :=
  match a, b with
  | Val u, Val v => Val (f u v)
  | _, _ => Masked
  end.

Definition item_add : item -> item -> item := item_op Qplus.
Definition item_sub : item -> item -> item := item_op Qminus.
Definition item_scale (a : Q) (b : item) : item := item_op Qmult (Val a) b.

(** [q[i, j]] on a masked array *)
Definition ma_get (q : masked_array) (i j : Z) : result item :=
  c <- nd_get q i j ;; Ok (item_of c).

(** [ma.masked_equal(data, value)]: the entries equal to [value] are
    masked. *)
Definition masked_equal (data : ndarray Q) (value : Q) : masked_array :=
  nd_map (fun v => (v, Qeq_bool v value)) data.

(** Row-major flattening and its inverse for a given number of columns,
    as numpy's [reshape] uses them. *)
Definition flatten {A : Type} (a : ndarray A) : list A := concat (rows a).

Fixpoint chunks {A : Type} (nr nc : nat) (l : list A) : list (list A) :=
  match nr with
  | O => []
  | S nr' => firstn nc l :: chunks nr' nc (skipn nc l)
  end.

Definition zip_rows (d : list Q) (m : list bool) : list (Q * bool) := combine d m.

(** [ma.MaskedArray(data=data, mask=mask)] for a plain [data]: a mask of
    the shape of the data is used as it is, a mask with a single entry is
    repeated, a mask with as many entries as the data is reshaped, and any
    other mask is refused. *)
Definition MaskedArray (data : ndarray Q) (mask : ndarray bool) : result masked_array :=
  let nd := length (flatten data) in
  let nm := length (flatten mask) in
  if (Nat.eqb (nrows mask) (nrows data) && Nat.eqb (ncols mask) (ncols data))%bool then
    Ok {| ncols := ncols data; rows := map (fun dm => zip_rows (fst dm) (snd dm)) (combine (rows data) (rows mask)) |}
  else if Nat.eqb nm 1 then
    Ok (nd_map (fun v => (v, hd false (flatten mask))) data)
  else if Nat.eqb nm nd then
    Ok {| ncols := ncols data;
          rows := map (fun dm => zip_rows (fst dm) (snd dm))
                      (combine (rows data) (chunks (nrows data) (ncols data) (flatten mask))) |}
  else Err MaskError.

(** ** The helpers of [grid_data.py] *)

Local Open Scope Q_scope.

(** [x[0] <= X <= x[-1]], evaluated left to right: [x[-1]] is read only
    when the first comparison holds. *)
Definition between (x : list Q) (X : Q) : result bool :=
  x0 <- py_get x 0 ;;
  if Qle_bool x0 X then (xl <- py_get x (-1) ;; Ok (Qle_bool X xl))
  else Ok false.

(** [_index_of_point(x, y, X, Y)] *)
Definition _index_of_point (x y : list Q) (X Y : Q) : result (Z * Z) :=
  inx <- between x X ;;
  inside <- (if inx : bool then between y Y else Ok false) ;;
  if negb inside then Err OutOfDomain
  else
    y0 <- py_get y 0 ;;
    y1 <- py_get y 1 ;;
    i <- int_div (Y - y0) (y1 - y0) ;;
    x0 <- py_get x 0 ;;
    x1 <- py_get x 1 ;;
    j <- int_div (X - x0) (x1 - x0) ;;
    Ok (Z.min i (Z.of_nat (length y) - 2), Z.min j (Z.of_nat (length x) - 2)).

(** The four corners of the cell [(i, j)], in the order of the
    comprehension [for k in (i, i+1) for l in (j, j+1)]. *)
Definition corners (i j : Z) : list (Z * Z) :=
  [(i, j); (i, j + 1); (i + 1, j); (i + 1, j + 1)]%Z.

Fixpoint collect {A B : Type} (f : A -> result B) (l : list A) : result (list B) :=
  match l with
  | [] => Ok []
  | a :: l' => b <- f a ;; bs <- collect f l' ;; Ok (b :: bs)
  end.

(** [_is_missing(q, i, j)]: the list is built first (an index out of
    range raises), then [any] is taken. *)
Definition _is_missing (q : masked_array) (i j : Z) : result bool :=
  tests <- collect (fun kl => v <- ma_get q (fst kl) (snd kl) ;; Ok (is_ma_masked v))
                   (corners i j) ;;
  Ok (existsb (fun b => b) tests).

(** ** The class [GridData] *)

Record GridData : Type := mk_GridData {
  gd_x : list Q;
  gd_y : list Q;
  gd_data : masked_array
}.

(** The [data] argument of the constructor is a plain array or a masked
    array ([isinstance(data, ma.MaskedArray)]). *)
Inductive data_arg : Type :=
| PlainArray (a : ndarray Q)
| PreMasked (m : masked_array).

Definition data_shape (d : data_arg) : nat * nat :=
  match d with
  | PlainArray a => shape a
  | PreMasked m => shape m
  end.

(** [GridData.__init__(x, y, data, mask=None, missing_data_value=None)] *)
Definition GridData_init (x y : list Q) (data : data_arg)
    (mask : option (ndarray bool)) (missing_data_value : option Q) : result GridData :=
  let '(ny, nx) := data_shape data in
  if (negb (Nat.eqb (length x) nx) || negb (Nat.eqb (length y) ny))%bool then
    Err ShapeMismatch
  else
    match data, missing_data_value, mask with
    | PreMasked m, _, _ => Ok (mk_GridData x y m)
    | PlainArray a, Some v, _ => Ok (mk_GridData x y (masked_equal a v))
    | PlainArray a, None, Some mk =>
        m <- MaskedArray a mk ;; Ok (mk_GridData x y m)
    | PlainArray a, None, None => Err UnspecifiedMask
    end.

(** [GridData.__getitem__]: [self[i, j]] *)
Definition getitem (g : GridData) (i j : Z) : result item :=
  ma_get (gd_data g) i j.

(** [GridData.is_masked(self, x)] for the point [x = (X, Y)] *)
Definition is_masked (g : GridData) (p : Q * Q) : result bool :=
  '(i, j) <- _index_of_point (gd_x g) (gd_y g) (fst p) (snd p) ;;
  _is_missing (gd_data g) i j.

(** [_bilinear_interp(q, X, Y)].  The divisions of line 27 are reached
    only after [_index_of_point] has divided by the same two spacings, so
    both are non-zero there. *)
Definition _bilinear_interp (q : GridData) (X Y : Q) : result item :=
  let x := gd_x q in
  let y := gd_y q in
  '(i, j) <- _index_of_point x y X Y ;;
  missing <- _is_missing (gd_data q) i j ;;
  if missing : bool then Err InsufficientData
  else
    xj <- py_get x j ;;
    x1 <- py_get x 1 ;;
    x0 <- py_get x 0 ;;
    yi <- py_get y i ;;
    y1 <- py_get y 1 ;;
    y0 <- py_get y 0 ;;
    let ax := (X - xj) / (x1 - x0) in
    let ay := (Y - yi) / (y1 - y0) in
    q01 <- getitem q i (j + 1) ;;
    q00 <- getitem q i j ;;
    let dq_dx := item_sub q01 q00 in
    q10 <- getitem q (i + 1) j ;;
    let dq_dy := item_sub q10 q00 in
    q11 <- getitem q (i + 1) (j + 1) ;;
    let d2q_dx_dy := item_sub (item_sub (item_add q00 q11) q10) q01 in
    Ok (item_add (item_add (item_add q00 (item_scale ax dq_dx))
                           (item_scale ay dq_dy))
                 (item_scale (ax * ay) d2q_dx_dy)).

(** [GridData.__call__(self, x)] *)
Definition evaluate (g : GridData) (p : Q * Q) : result item :=
  _bilinear_interp g (fst p) (snd p).

(** [GridData.subset(self, xmin, ymin, xmax, ymax)] *)
Definition subset (g : GridData) (xmin ymin xmax ymax : Q) : result GridData :=
  x0 <- py_get (gd_x g) 0 ;;
  y0 <- py_get (gd_y g) 0 ;;
  let Xmin := py_max xmin x0 in
  let Ymin := py_max ymin y0 in
  xl <- py_get (gd_x g) (-1) ;;
  yl <- py_get (gd_y g) (-1) ;;
  let Xmax := py_min xmax xl in
  let Ymax := py_min ymax yl in
  '(imin, jmin) <- _index_of_point (gd_x g) (gd_y g) Xmin Ymin ;;
  '(imax, jmax) <- _index_of_point (gd_x g) (gd_y g) Xmax Ymax ;;
  let x := py_slice (gd_x g) jmin (jmax + 2) in
  let y := py_slice (gd_y g) imin (imax + 2) in
  let data := nd_slice (gd_data g) imin (imax + 2) jmin (jmax + 2) in
  GridData_init x y (PreMasked data) None None.

(** ** Concrete grids used in the examples *)

Definition unmasked (rs : list (list Q)) : list (list (Q * bool)) :=
  map (map (fun v => (v, false))) rs.

(** x = [0, 1], y = [0, 1], values = [[0, 1], [2, 3]], nothing masked *)
Definition grid_2x2 : GridData :=
  mk_GridData [0; 1] [0; 1] (mk_ndarray 2 (unmasked [[0; 1]; [2; 3]])).

(** x = [0, 1, 2, 3], y = [0, 1, 2], all values 1, nothing masked *)
Definition grid_ones : GridData :=
  mk_GridData [0; 1; 2; 3] [0; 1; 2]
    (mk_ndarray 4 (unmasked [[1; 1; 1; 1]; [1; 1; 1; 1]; [1; 1; 1; 1]])).

(** x = [0, 1, 2], y = [0, 1], values = [[0, 1, 2], [3, 4, 5]], the sample
    at row 0, column 2 masked *)
Definition grid_gap : GridData :=
  mk_GridData [0; 1; 2] [0; 1]
    (mk_ndarray 3 [[(0, false); (1, false); (2, true)];
                   [(3, false); (4, false); (5, false)]]).

(** ** Well-formed grids *)

Definition Qlt_bool (a b : Q) : bool := negb (Qle_bool b a).

(** Strictly increasing coordinates. *)
Fixpoint increasingb (l : list Q) : bool :=
  match l with
  | a :: (b :: _) as t => Qlt_bool a b && increasingb t
  | _ => true
  end.

(** Uniform spacing: the entry of rank [k] is [x0 + k * h]. *)
Fixpoint uniform_from (x0 h : Q) (k : nat) (l : list Q) : bool :=
  match l with
  | [] => true
  | a :: t => Qeq_bool a (x0 + inject_Z (Z.of_nat k) * h) && uniform_from x0 h (S k) t
  end.

Definition uniformb (l : list Q) : bool :=
  match l with
  | x0 :: x1 :: _ => uniform_from x0 (x1 - x0) 0 l
  | _ => true
  end.

Definition rectangularb {A : Type} (a : ndarray A) : bool :=
  forallb (fun r => Nat.eqb (length r) (ncols a)) (rows a).

(** An axis of the data model: at least two strictly increasing
    coordinates. *)
Definition axis_ok (l : list Q) : bool :=
  (2 <=? length l)%nat && increasingb l.

(** The invariant of the data model: two axes, and samples of shape
    [(len(y), len(x))]. *)
Definition well_formed (g : GridData) : bool :=
  axis_ok (gd_x g) && axis_ok (gd_y g)
  && Nat.eqb (nrows (gd_data g)) (length (gd_y g))
  && Nat.eqb (ncols (gd_data g)) (length (gd_x g))
  && rectangularb (gd_data g).

Definition uniform_grid (g : GridData) : bool :=
  uniformb (gd_x g) && uniformb (gd_y g).

(** The coordinate of rank [k] on an axis. *)
Definition coord (l : list Q) (k : Z) : Q := nth (Z.to_nat k) l 0.

Definition last_coord (l : list Q) : Q := nth (length l - 1) l 0.

(** The closed domain rectangle. *)
Definition in_axis (l : list Q) (X : Q) : bool :=
  Qle_bool (coord l 0) X && Qle_bool X (last_coord l).

Definition in_domain (g : GridData) (p : Q * Q) : bool :=
  in_axis (gd_x g) (fst p) && in_axis (gd_y g) (snd p).

(** The index along one axis, as lines 10 to 13 compute it. *)
Definition cell_index (l : list Q) (X : Q) : Z :=
  Z.min (to_int ((X - coord l 0) / (coord l 1 - coord l 0)))
        (Z.of_nat (length l) - 2).

(** The bilinear form of line 32 on four numbers. *)
Definition bilinear (q00 q01 q10 q11 ax ay : Q) : Q :=
  q00 + ax * (q01 - q00) + ay * (q10 - q00) + ax * ay * (q00 + q11 - q10 - q01).

(** The sample at an index pair known to be in range. *)
Definition sample (q : masked_array) (i j : Z) : item :=
  item_of (nth (Z.to_nat j) (nth (Z.to_nat i) (rows q) []) (0, true)).

(** Whether one of the four corners of the cell [(i, j)] is masked. *)
Definition cell_missing (q : masked_array) (i j : Z) : bool :=
  existsb (fun kl => is_ma_masked (sample q (fst kl) (snd kl))) (corners i j).

(** The cell of an in-domain point. *)
Definition cell_of (g : GridData) (p : Q * Q) : Z * Z :=
  (cell_index (gd_y g) (snd p), cell_index (gd_x g) (fst p)).

(** The value line 32 computes on the cell [(i, j)] of a table of samples
    [S], for the offsets [ax] and [ay], as an item. *)
Definition cell_value (S : Z -> Z -> item) (i j : Z) (ax ay : Q) : item :=
  let q00 := S i j in
  let q01 := S i (j + 1)%Z in
  let q10 := S (i + 1)%Z j in
  let q11 := S (i + 1)%Z (j + 1)%Z in
  item_add (item_add (item_add q00 (item_scale ax (item_sub q01 q00)))
                     (item_scale ay (item_sub q10 q00)))
           (item_scale (ax * ay) (item_sub (item_sub (item_add q00 q11) q10) q01)).

(** The value [evaluate] computes on the cell [(i, j)] of a grid for the
    point [(X, Y)] (lines 27 to 32). *)
Definition interpolant (g : GridData) (i j : Z) (X Y : Q) : item :=
  cell_value (sample (gd_data g)) i j
    ((X - coord (gd_x g) j) / (coord (gd_x g) 1 - coord (gd_x g) 0))
    ((Y - coord (gd_y g) i) / (coord (gd_y g) 1 - coord (gd_y g) 0)).

(** Two results of [evaluate] that agree: the same number (as rationals)
    or the same error. *)
Definition same_item (a b : item) : Prop :=
  match a, b with
  | Masked, Masked => True
  | Val u, Val v => u == v
  | _, _ => False
  end.

Definition same_result (r r' : result item) : Prop :=
  match r, r' with
  | Ok a, Ok b => same_item a b
  | Err e, Err e' => e = e'
  | _, _ => False
  end.

(** ** The three ways of giving a mask *)

(** How many of the three mask specifications a call of the constructor
    provides. *)
Definition mask_specs (data : data_arg) (mask : option (ndarray bool))
    (missing_data_value : option Q) : nat :=
  (match data with PreMasked _ => 1 | PlainArray _ => 0 end
   + match mask with Some _ => 1 | None => 0 end
   + match missing_data_value with Some _ => 1 | None => 0 end)%nat.

(** The numbers and the mask of a masked array ([m.data], [m.mask]), and
    the plain array where the missing entries hold a sentinel
    ([m.filled(s)]). *)
Definition ma_values (m : masked_array) : ndarray Q := nd_map fst m.
Definition ma_mask (m : masked_array) : ndarray bool := nd_map snd m.
Definition filled (m : masked_array) (s : Q) : ndarray Q :=
  nd_map (fun c : Q * bool => if snd c then s else fst c) m.

(** The sentinel is none of the valid samples. *)
Definition sentinel_free (m : masked_array) (s : Q) : bool :=
  forallb (forallb (fun c : Q * bool => snd c || negb (Qeq_bool (fst c) s))) (rows m).

(** What indexing can see of a masked array. *)
Definition view (m : masked_array) : ndarray item := nd_map item_of m.

(** A constructor call that gives a masked array together with an
    explicit mask and a sentinel. *)
Definition three_specs : result GridData :=
  GridData_init [0; 1] [0; 1] (PreMasked (gd_data grid_2x2))
    (Some (mk_ndarray 2 [[false; false]; [false; false]])) (Some 0).

(** The position of [X] on an axis, in units of the spacing: the argument
    of [int] in lines 10 and 11. *)
Definition grid_position (l : list Q) (X : Q) : Q :=
  (X - coord l 0) / (coord l 1 - coord l 0).

(** ** Sub-region extraction: the parts of [subset] *)

(** The requested corners clamped to the domain (lines 93 and 94). *)
Definition clamp_low (g : GridData) (xmin ymin : Q) : Q * Q :=
  (py_max xmin (coord (gd_x g) 0), py_max ymin (coord (gd_y g) 0)).

Definition clamp_high (g : GridData) (xmax ymax : Q) : Q * Q :=
  (py_min xmax (last_coord (gd_x g)), py_min ymax (last_coord (gd_y g))).

(** The grid of the slices of lines 99 to 101. *)
Definition subset_grid (g : GridData) (imin imax jmin jmax : Z) : GridData :=
  mk_GridData (py_slice (gd_x g) jmin (jmax + 2))
              (py_slice (gd_y g) imin (imax + 2))
              (nd_slice (gd_data g) imin (imax + 2) jmin (jmax + 2)).

(** ** Inputs of the constructor *)

(** numpy arrays are rectangular; these predicates say so for the [data]
    and [mask] arguments of the constructor. *)
Definition data_rectangular (d : data_arg) : bool :=
  match d with
  | PlainArray a => rectangularb a
  | PreMasked m => rectangularb m
  end.

Definition mask_rectangular (mask : option (ndarray bool)) : bool :=
  match mask with
  | Some mk => rectangularb mk
  | None => true
  end.

(** A field [a + b*X + c*Y + d*X*Y], the kind bilinear interpolation
    reproduces. *)
Definition bilinear_field (a b c d X Y : Q) : Q := a + b * X + c * Y + d * X * Y.

(** ** Sequences: indexing and slicing lemmas *)

Section Sequences.

Context {A : Type}.
Implicit Types (l : list A) (d : A).

Lemma norm_index_nat (n k : nat) :
  (k < n)%nat -> norm_index n (Z.of_nat k) = Some k.
Proof.
  intros H. unfold norm_index.
  replace (0 <=? Z.of_nat k)%Z with true by (symmetry; apply Z.leb_le; lia).
  replace (Z.of_nat k <? Z.of_nat n)%Z with true by (symmetry; apply Z.ltb_lt; lia).
  simpl. now rewrite Nat2Z.id.
Qed.

Lemma norm_index_nonneg (n : nat) (k : Z) :
  (0 <= k < Z.of_nat n)%Z -> norm_index n k = Some (Z.to_nat k).
Proof.
  intros H. rewrite <- (Z2Nat.id k) at 1 by lia.
  apply norm_index_nat. lia.
Qed.

Lemma norm_index_last (n : nat) :
  (0 < n)%nat -> norm_index n (-1) = Some (n - 1)%nat.
Proof.
  intros H. unfold norm_index.
  change ((0 <=? -1)%Z && (-1 <? Z.of_nat n)%Z) with false. cbv iota.
  replace (- Z.of_nat n <=? -1)%Z with true by (symmetry; apply Z.leb_le; lia).
  change (true && (-1 <? 0)%Z) with true. cbv iota.
  f_equal. lia.
Qed.

Lemma norm_index_bound (n : nat) (k : Z) (r : nat) :
  norm_index n k = Some r -> (r < n)%nat.
Proof.
  unfold norm_index.
  destruct ((0 <=? k)%Z && (k <? Z.of_nat n)%Z) eqn:E1.
  - apply andb_prop in E1 as [H1 H2]. apply Z.leb_le in H1. apply Z.ltb_lt in H2.
    intros [= <-]. lia.
  - destruct ((- Z.of_nat n <=? k)%Z && (k <? 0)%Z) eqn:E2; [|discriminate].
    apply andb_prop in E2 as [H1 H2]. apply Z.leb_le in H1. apply Z.ltb_lt in H2.
    intros [= <-]. lia.
Qed.

Lemma py_get_nat l (k : nat) d :
  (k < length l)%nat -> py_get l (Z.of_nat k) = Ok (nth k l d).
Proof.
  intros H. unfold py_get. rewrite norm_index_nat by assumption.
  now rewrite (nth_error_nth' l d H).
Qed.

Lemma py_get_nonneg l (k : Z) d :
  (0 <= k < Z.of_nat (length l))%Z -> py_get l k = Ok (nth (Z.to_nat k) l d).
Proof.
  intros H. rewrite <- (Z2Nat.id k) at 1 by lia.
  apply py_get_nat. lia.
Qed.

Lemma py_get_last l d :
  (0 < length l)%nat -> py_get l (-1) = Ok (nth (length l - 1) l d).
Proof.
  intros H. unfold py_get. rewrite norm_index_last by assumption.
  rewrite (nth_error_nth' l d) by lia. reflexivity.
Qed.

Lemma norm_bound_nonneg (n : nat) (k : Z) :
  (0 <= k)%Z -> norm_bound n k = Nat.min (Z.to_nat k) n.
Proof.
  intros H. unfold norm_bound.
  replace (k <? 0)%Z with false by (symmetry; apply Z.ltb_ge; lia).
  lia.
Qed.

Lemma norm_bound_le (n : nat) (k : Z) : (norm_bound n k <= n)%nat.
Proof. unfold norm_bound. destruct (k <? 0)%Z; lia. Qed.

Lemma length_py_slice l (a b : Z) :
  length (py_slice l a b) = slice_len (length l) a b.
Proof.
  unfold py_slice, slice_len. rewrite length_firstn, length_skipn.
  pose proof (norm_bound_le (length l) b). lia.
Qed.

Lemma nth_py_slice l (a b : Z) (k : nat) d :
  (k < slice_len (length l) a b)%nat ->
  nth k (py_slice l a b) d = nth (norm_bound (length l) a + k) l d.
Proof.
  intros H. unfold py_slice. rewrite nth_firstn.
  replace (k <? slice_len (length l) a b)%nat with true
    by (symmetry; apply Nat.ltb_lt; exact H).
  apply nth_skipn.
Qed.

End Sequences.

(** ** Numbers *)

Lemma Qlt_bool_iff (a b : Q) : Qlt_bool a b = true <-> a < b.
Proof.
  unfold Qlt_bool. rewrite negb_true_iff. split.
  - intros H. apply Qnot_le_lt. intros Hle. apply Qle_bool_iff in Hle. congruence.
  - intros H. destruct (Qle_bool b a) eqn:E; [|reflexivity].
    apply Qle_bool_iff in E. exfalso. apply (Qlt_not_le _ _ H E).
Qed.

Lemma Qle_bool_false (a b : Q) : Qle_bool a b = false <-> b < a.
Proof. rewrite <- Qlt_bool_iff. unfold Qlt_bool. now rewrite negb_true_iff. Qed.

Lemma to_int_floor (q : Q) : 0 <= q -> to_int q = Qfloor q.
Proof.
  destruct q as [n d]. unfold Qle, to_int, Qfloor. simpl. intros H.
  apply Z.quot_div_nonneg; lia.
Qed.

Lemma Qfloor_unique (q : Q) (k : Z) :
  inject_Z k <= q -> q < inject_Z (k + 1) -> Qfloor q = k.
Proof.
  intros H1 H2.
  pose proof (Qfloor_le q) as F1. pose proof (Qlt_floor q) as F2.
  assert (Hlt1 : inject_Z k < inject_Z (Qfloor q + 1)) by lra.
  assert (Hlt2 : inject_Z (Qfloor q) < inject_Z (k + 1)) by lra.
  rewrite <- Zlt_Qlt in Hlt1, Hlt2. lia.
Qed.

Lemma Qdiv_nonneg (a b : Q) : 0 <= a -> 0 < b -> 0 <= a / b.
Proof. intros Ha Hb. apply Qle_shift_div_l; [assumption | lra]. Qed.

Lemma int_div_pos (a b : Q) : 0 < b -> int_div a b = Ok (to_int (a / b)).
Proof.
  intros Hb. unfold int_div. destruct (Qeq_bool b 0) eqn:E; [|reflexivity].
  apply Qeq_bool_iff in E. lra.
Qed.

Lemma py_max_spec (a b : Q) : a <= py_max a b /\ b <= py_max a b.
Proof.
  unfold py_max. destruct (Qle_bool b a) eqn:E.
  - apply Qle_bool_iff in E. lra.
  - apply Qle_bool_false in E. lra.
Qed.

Lemma py_min_spec (a b : Q) : py_min a b <= a /\ py_min a b <= b.
Proof.
  unfold py_min. destruct (Qle_bool a b) eqn:E.
  - apply Qle_bool_iff in E. lra.
  - apply Qle_bool_false in E. lra.
Qed.

(** ** Axes *)

Lemma increasingb_tail (a : Q) (l : list Q) :
  increasingb (a :: l) = true -> increasingb l = true.
Proof.
  destruct l as [|b t]; [reflexivity|].
  cbn [increasingb]. intros H. now apply andb_prop in H.
Qed.

Lemma increasingb_head (a : Q) (l : list Q) (k : nat) :
  increasingb (a :: l) = true -> (k < length l)%nat -> a < nth k l 0.
Proof.
  revert a k. induction l as [|b t IH]; intros a k H Hk; [simpl in Hk; lia|].
  cbn [increasingb] in H. apply andb_prop in H as [Hab Ht].
  apply Qlt_bool_iff in Hab.
  destruct k as [|k]; [exact Hab|].
  simpl in Hk. cbn [nth].
  apply Qlt_trans with b; [exact Hab|]. apply IH; [exact Ht | lia].
Qed.

Lemma increasingb_nth (l : list Q) (a b : nat) :
  increasingb l = true -> (a < b)%nat -> (b < length l)%nat ->
  nth a l 0 < nth b l 0.
Proof.
  revert a b. induction l as [|c t IH]; intros a b H Hab Hb; [simpl in Hb; lia|].
  destruct b as [|b]; [lia|]. simpl in Hb.
  destruct a as [|a]; cbn [nth].
  - apply increasingb_head; [exact H | lia].
  - apply IH; [eapply increasingb_tail; exact H | lia | lia].
Qed.

Lemma increasingb_nth_le (l : list Q) (a b : nat) :
  increasingb l = true -> (a <= b)%nat -> (b < length l)%nat ->
  nth a l 0 <= nth b l 0.
Proof.
  intros H Hab Hb. destruct (Nat.eq_dec a b) as [->|Hne]; [apply Qle_refl|].
  apply Qlt_le_weak. apply increasingb_nth; [exact H | lia | exact Hb].
Qed.

Lemma increasingb_skipn (n : nat) (l : list Q) :
  increasingb l = true -> increasingb (skipn n l) = true.
Proof.
  revert l. induction n as [|n IH]; intros l H; [exact H|].
  destruct l as [|a t]; [reflexivity|].
  cbn [skipn]. apply IH. eapply increasingb_tail; exact H.
Qed.

Lemma increasingb_firstn (n : nat) (l : list Q) :
  increasingb l = true -> increasingb (firstn n l) = true.
Proof.
  revert l. induction n as [|n IH]; intros l H; [reflexivity|].
  destruct l as [|a t]; [reflexivity|].
  cbn [firstn]. specialize (IH t (increasingb_tail _ _ H)).
  destruct t as [|b t']; [destruct n; reflexivity|].
  destruct n as [|n]; [reflexivity|].
  cbn [firstn] in *. cbn [increasingb] in *.
  apply andb_prop in H as [Hab _]. rewrite Hab. exact IH.
Qed.

Lemma increasingb_slice (l : list Q) (a b : Z) :
  increasingb l = true -> increasingb (py_slice l a b) = true.
Proof.
  intros H. unfold py_slice. now apply increasingb_firstn, increasingb_skipn.
Qed.

Lemma uniform_from_nth (x0 h : Q) (l : list Q) (s k : nat) :
  uniform_from x0 h s l = true -> (k < length l)%nat ->
  nth k l 0 == x0 + inject_Z (Z.of_nat (s + k)) * h.
Proof.
  revert s k. induction l as [|a t IH]; intros s k H Hk; [simpl in Hk; lia|].
  cbn [uniform_from] in H. apply andb_prop in H as [Ha Ht].
  destruct k as [|k].
  - cbn [nth]. rewrite Nat.add_0_r. now apply Qeq_bool_iff.
  - cbn [nth]. simpl in Hk. rewrite (IH (S s) k Ht) by lia.
    now replace (S s + k)%nat with (s + S k)%nat by lia.
Qed.

(** On a uniform axis the coordinate of rank [k] is [x0 + k * (x1 - x0)]. *)
Lemma uniformb_coord (l : list Q) (k : nat) :
  uniformb l = true -> (k < length l)%nat ->
  nth k l 0 == nth 0 l 0 + inject_Z (Z.of_nat k) * (nth 1 l 0 - nth 0 l 0).
Proof.
  destruct l as [|x0 [|x1 t]].
  - simpl. lia.
  - simpl. intros _ Hk. assert (k = 0%nat) as -> by lia.
    cbn [nth Z.of_nat]. change (inject_Z 0) with 0. ring.
  - intros H Hk. unfold uniformb in H.
    apply (uniform_from_nth _ _ _ 0%nat k H Hk).
Qed.

Section Axis.

Variable l : list Q.
Hypothesis Hax : axis_ok l = true.

Lemma axis_length : (2 <= length l)%nat.
Proof.
  unfold axis_ok in Hax. apply andb_prop in Hax as [H _].
  now apply Nat.leb_le in H.
Qed.

Lemma axis_increasing : increasingb l = true.
Proof. unfold axis_ok in Hax. now apply andb_prop in Hax as [_ H]. Qed.

Lemma axis_step_pos : coord l 0 < coord l 1.
Proof.
  unfold coord. apply increasingb_nth; [exact axis_increasing | simpl; lia |].
  pose proof axis_length. simpl. lia.
Qed.

Lemma axis_first_le (k : nat) : (k < length l)%nat -> coord l 0 <= nth k l 0.
Proof.
  intros Hk. unfold coord. apply increasingb_nth_le; [exact axis_increasing | simpl; lia | exact Hk].
Qed.

Lemma axis_le_last (k : nat) : (k < length l)%nat -> nth k l 0 <= last_coord l.
Proof.
  intros Hk. unfold last_coord.
  apply increasingb_nth_le; [exact axis_increasing | lia | lia].
Qed.

Lemma axis_get_0 : py_get l 0 = Ok (coord l 0).
Proof. pose proof axis_length. apply (py_get_nat l 0 0). lia. Qed.

Lemma axis_get_1 : py_get l 1 = Ok (coord l 1).
Proof. pose proof axis_length. apply (py_get_nat l 1 0). lia. Qed.

Lemma axis_get_last : py_get l (-1) = Ok (last_coord l).
Proof. pose proof axis_length. apply py_get_last. lia. Qed.

Lemma axis_get (k : Z) :
  (0 <= k < Z.of_nat (length l))%Z -> py_get l k = Ok (coord l k).
Proof. intros H. now apply py_get_nonneg. Qed.

Lemma between_axis (X : Q) : between l X = Ok (in_axis l X).
Proof.
  unfold between, in_axis. rewrite axis_get_0. cbn [bind].
  destruct (Qle_bool (coord l 0) X); [|reflexivity].
  rewrite axis_get_last. reflexivity.
Qed.

Lemma in_axis_iff (X : Q) :
  in_axis l X = true <-> coord l 0 <= X /\ X <= last_coord l.
Proof.
  unfold in_axis. rewrite andb_true_iff, !Qle_bool_iff. reflexivity.
Qed.

(** Lines 10 and 11 on an in-range coordinate: no error, and [int] is
    the floor. *)
Lemma int_div_axis (X : Q) :
  int_div (X - coord l 0) (coord l 1 - coord l 0)
  = Ok (to_int ((X - coord l 0) / (coord l 1 - coord l 0))).
Proof. apply int_div_pos. pose proof axis_step_pos. lra. Qed.

Lemma cell_index_floor (X : Q) :
  coord l 0 <= X ->
  cell_index l X
  = Z.min (Qfloor ((X - coord l 0) / (coord l 1 - coord l 0))) (Z.of_nat (length l) - 2).
Proof.
  intros H. unfold cell_index. rewrite to_int_floor; [reflexivity|].
  apply Qdiv_nonneg; pose proof axis_step_pos; lra.
Qed.

Lemma cell_index_bounds (X : Q) :
  coord l 0 <= X -> (0 <= cell_index l X <= Z.of_nat (length l) - 2)%Z.
Proof.
  intros H. rewrite cell_index_floor by exact H.
  pose proof axis_length as Hlen.
  assert (Hq : 0 <= (X - coord l 0) / (coord l 1 - coord l 0))
    by (apply Qdiv_nonneg; pose proof axis_step_pos; lra).
  apply Qfloor_resp_le in Hq. change (Qfloor 0) with 0%Z in Hq.
  lia.
Qed.

Lemma cell_index_mono (X X' : Q) :
  coord l 0 <= X -> X <= X' -> (cell_index l X <= cell_index l X')%Z.
Proof.
  intros H0 HX. rewrite !cell_index_floor by lra.
  apply Z.min_le_compat_r. apply Qfloor_resp_le.
  pose proof axis_step_pos as Hs.
  unfold Qdiv. apply Qmult_le_compat_r; [lra|].
  apply Qlt_le_weak, Qinv_lt_0_compat. lra.
Qed.

End Axis.

(** ** The index computation on well-formed axes *)

Lemma index_of_point_in (x y : list Q) (X Y : Q) :
  axis_ok x = true -> axis_ok y = true ->
  in_axis x X = true -> in_axis y Y = true ->
  _index_of_point x y X Y = Ok (cell_index y Y, cell_index x X).
Proof.
  intros Hx Hy HX HY. unfold _index_of_point.
  rewrite (between_axis x Hx), HX. cbn [bind].
  rewrite (between_axis y Hy), HY. cbn [bind negb].
  rewrite (axis_get_0 y Hy), (axis_get_1 y Hy). cbn [bind].
  rewrite (int_div_axis y Hy). cbn [bind].
  rewrite (axis_get_0 x Hx), (axis_get_1 x Hx). cbn [bind].
  rewrite (int_div_axis x Hx). cbn [bind].
  reflexivity.
Qed.

Lemma index_of_point_out (x y : list Q) (X Y : Q) :
  axis_ok x = true -> axis_ok y = true ->
  in_axis x X && in_axis y Y = false ->
  _index_of_point x y X Y = Err OutOfDomain.
Proof.
  intros Hx Hy H. unfold _index_of_point.
  rewrite (between_axis x Hx). cbn [bind].
  destruct (in_axis x X); [|reflexivity].
  rewrite (between_axis y Hy). cbn [bind].
  simpl in H. rewrite H. reflexivity.
Qed.

(** The only way [_index_of_point] gives a cell on well-formed axes. *)
Lemma index_of_point_inv (x y : list Q) (X Y : Q) (i j : Z) :
  axis_ok x = true -> axis_ok y = true ->
  _index_of_point x y X Y = Ok (i, j) ->
  in_axis x X = true /\ in_axis y Y = true /\
  i = cell_index y Y /\ j = cell_index x X.
Proof.
  intros Hx Hy H.
  destruct (in_axis x X && in_axis y Y) eqn:E.
  - apply andb_prop in E as [HX HY].
    rewrite (index_of_point_in x y X Y Hx Hy HX HY) in H.
    injection H as <- <-. repeat split; assumption.
  - rewrite (index_of_point_out x y X Y Hx Hy E) in H. discriminate.
Qed.

(** ** Arrays *)

Lemma rectangularb_row {A : Type} (a : ndarray A) (r : nat) :
  rectangularb a = true -> (r < nrows a)%nat ->
  length (nth r (rows a) []) = ncols a.
Proof.
  intros H Hr. unfold rectangularb in H. rewrite forallb_forall in H.
  apply Nat.eqb_eq. apply H. apply nth_In. exact Hr.
Qed.

Lemma nd_get_in {A : Type} (a : ndarray A) (i j : Z) (d : A) :
  rectangularb a = true ->
  (0 <= i < Z.of_nat (nrows a))%Z -> (0 <= j < Z.of_nat (ncols a))%Z ->
  nd_get a i j = Ok (nth (Z.to_nat j) (nth (Z.to_nat i) (rows a) []) d).
Proof.
  intros Hrect Hi Hj. unfold nd_get.
  rewrite (norm_index_nonneg _ i Hi), (norm_index_nonneg _ j Hj).
  assert (Hr : (Z.to_nat i < nrows a)%nat) by lia.
  unfold nrows in Hr. rewrite (nth_error_nth' (rows a) [] Hr).
  pose proof (rectangularb_row a (Z.to_nat i) Hrect Hr) as Hlen.
  rewrite (nth_error_nth' _ d) by lia. reflexivity.
Qed.

Lemma ma_get_in (q : masked_array) (i j : Z) :
  rectangularb q = true ->
  (0 <= i < Z.of_nat (nrows q))%Z -> (0 <= j < Z.of_nat (ncols q))%Z ->
  ma_get q i j = Ok (sample q i j).
Proof.
  intros Hrect Hi Hj. unfold ma_get.
  rewrite (nd_get_in q i j (0, true) Hrect Hi Hj). reflexivity.
Qed.

(** On a cell with an upper neighbour in both directions the four
    accesses of [_is_missing] are in range. *)
Lemma is_missing_in (q : masked_array) (i j : Z) :
  rectangularb q = true ->
  (0 <= i <= Z.of_nat (nrows q) - 2)%Z -> (0 <= j <= Z.of_nat (ncols q) - 2)%Z ->
  _is_missing q i j = Ok (cell_missing q i j).
Proof.
  intros Hrect Hi Hj. unfold _is_missing, cell_missing, corners.
  cbn [collect fst snd].
  rewrite !ma_get_in by (assumption || lia).
  cbn [bind existsb]. reflexivity.
Qed.

Lemma cell_missing_false (q : masked_array) (i j : Z) :
  cell_missing q i j = false <->
  exists q00 q01 q10 q11,
    sample q i j = Val q00 /\ sample q i (j + 1) = Val q01 /\
    sample q (i + 1) j = Val q10 /\ sample q (i + 1) (j + 1) = Val q11.
Proof.
  unfold cell_missing, corners. cbn [existsb fst snd].
  split.
  - intros H.
    destruct (sample q i j) as [|q00]; [discriminate|].
    destruct (sample q i (j + 1)) as [|q01]; [discriminate|].
    destruct (sample q (i + 1) j) as [|q10]; [discriminate|].
    destruct (sample q (i + 1) (j + 1)) as [|q11]; [discriminate|].
    now exists q00, q01, q10, q11.
  - intros (q00 & q01 & q10 & q11 & -> & -> & -> & ->). reflexivity.
Qed.

Lemma cell_missing_true (q : masked_array) (i j : Z) :
  cell_missing q i j = true <->
  sample q i j = Masked \/ sample q i (j + 1) = Masked \/
  sample q (i + 1) j = Masked \/ sample q (i + 1) (j + 1) = Masked.
Proof.
  unfold cell_missing, corners. cbn [existsb fst snd].
  destruct (sample q i j), (sample q i (j + 1)), (sample q (i + 1) j),
    (sample q (i + 1) (j + 1)); cbn; split; intros H; try reflexivity;
    try discriminate; auto;
    repeat (destruct H as [H|H]; try discriminate); discriminate.
Qed.

(** ** Well-formed grids: what the invariant gives *)

Section WellFormed.

Variable g : GridData.
Hypothesis Hwf : well_formed g = true.

Lemma wf_parts :
  axis_ok (gd_x g) = true /\ axis_ok (gd_y g) = true /\
  nrows (gd_data g) = length (gd_y g) /\
  ncols (gd_data g) = length (gd_x g) /\
  rectangularb (gd_data g) = true.
Proof.
  pose proof Hwf as H. unfold well_formed in H.
  apply andb_prop in H as [H Hrect].
  apply andb_prop in H as [H Hnc].
  apply andb_prop in H as [H Hnr].
  apply andb_prop in H as [Hx Hy].
  apply Nat.eqb_eq in Hnc, Hnr. repeat split; assumption.
Qed.

Lemma wf_x : axis_ok (gd_x g) = true.
Proof. apply wf_parts. Qed.

Lemma wf_y : axis_ok (gd_y g) = true.
Proof. apply wf_parts. Qed.

Lemma wf_nrows : nrows (gd_data g) = length (gd_y g).
Proof. apply wf_parts. Qed.

Lemma wf_ncols : ncols (gd_data g) = length (gd_x g).
Proof. apply wf_parts. Qed.

Lemma wf_rect : rectangularb (gd_data g) = true.
Proof. apply wf_parts. Qed.

Lemma in_domain_parts (p : Q * Q) :
  in_domain g p = true <->
  in_axis (gd_x g) (fst p) = true /\ in_axis (gd_y g) (snd p) = true.
Proof. unfold in_domain. apply andb_true_iff. Qed.

Lemma wf_index (p : Q * Q) :
  in_domain g p = true ->
  _index_of_point (gd_x g) (gd_y g) (fst p) (snd p) = Ok (cell_of g p).
Proof.
  intros H. apply in_domain_parts in H as [HX HY].
  apply index_of_point_in; auto using wf_x, wf_y.
Qed.

Lemma wf_index_out (p : Q * Q) :
  in_domain g p = false ->
  _index_of_point (gd_x g) (gd_y g) (fst p) (snd p) = Err OutOfDomain.
Proof. intros H. apply index_of_point_out; auto using wf_x, wf_y. Qed.

Lemma wf_cell_bounds (p : Q * Q) :
  in_domain g p = true ->
  (0 <= fst (cell_of g p) <= Z.of_nat (length (gd_y g)) - 2)%Z /\
  (0 <= snd (cell_of g p) <= Z.of_nat (length (gd_x g)) - 2)%Z.
Proof.
  intros H. apply in_domain_parts in H as [HX HY].
  apply in_axis_iff in HX. apply in_axis_iff in HY.
  split; apply cell_index_bounds; auto using wf_x, wf_y; tauto.
Qed.

Lemma wf_is_missing (i j : Z) :
  (0 <= i <= Z.of_nat (length (gd_y g)) - 2)%Z ->
  (0 <= j <= Z.of_nat (length (gd_x g)) - 2)%Z ->
  _is_missing (gd_data g) i j = Ok (cell_missing (gd_data g) i j).
Proof.
  intros Hi Hj. apply is_missing_in; [exact wf_rect | |].
  - rewrite wf_nrows. exact Hi.
  - rewrite wf_ncols. exact Hj.
Qed.

Lemma wf_getitem (i j : Z) :
  (0 <= i < Z.of_nat (length (gd_y g)))%Z ->
  (0 <= j < Z.of_nat (length (gd_x g)))%Z ->
  getitem g i j = Ok (sample (gd_data g) i j).
Proof.
  intros Hi Hj. unfold getitem. apply ma_get_in; [exact wf_rect | |].
  - rewrite wf_nrows. exact Hi.
  - rewrite wf_ncols. exact Hj.
Qed.

Lemma wf_is_masked (p : Q * Q) :
  in_domain g p = true ->
  is_masked g p = Ok (cell_missing (gd_data g) (fst (cell_of g p)) (snd (cell_of g p))).
Proof.
  intros H. unfold is_masked. rewrite (wf_index p H).
  destruct (wf_cell_bounds p H) as [Hi Hj].
  unfold cell_of in *. cbn [bind fst snd] in *.
  now apply wf_is_missing.
Qed.

(** [evaluate] on an in-domain point, in one equation. *)
Lemma wf_evaluate (p : Q * Q) :
  in_domain g p = true ->
  evaluate g p =
    if cell_missing (gd_data g) (fst (cell_of g p)) (snd (cell_of g p))
    then Err InsufficientData
    else Ok (interpolant g (fst (cell_of g p)) (snd (cell_of g p)) (fst p) (snd p)).
Proof.
  intros H. unfold evaluate, _bilinear_interp. rewrite (wf_index p H).
  destruct (wf_cell_bounds p H) as [Hi Hj].
  unfold cell_of in *. cbn [bind fst snd] in *.
  rewrite (wf_is_missing _ _ Hi Hj). cbn [bind].
  destruct (cell_missing _ _ _); [reflexivity|].
  rewrite (axis_get (gd_x g) (cell_index (gd_x g) (fst p))) by lia.
  rewrite (axis_get_1 _ wf_x), (axis_get_0 _ wf_x).
  rewrite (axis_get (gd_y g) (cell_index (gd_y g) (snd p))) by lia.
  rewrite (axis_get_1 _ wf_y), (axis_get_0 _ wf_y).
  cbn [bind].
  rewrite !wf_getitem by lia. cbn [bind].
  reflexivity.
Qed.

Lemma wf_evaluate_out (p : Q * Q) :
  in_domain g p = false -> evaluate g p = Err OutOfDomain.
Proof.
  intros H. unfold evaluate, _bilinear_interp.
  now rewrite (wf_index_out p H).
Qed.

Lemma wf_is_masked_out (p : Q * Q) :
  in_domain g p = false -> is_masked g p = Err OutOfDomain.
Proof. intros H. unfold is_masked. now rewrite (wf_index_out p H). Qed.

End WellFormed.

(** ** Bilinear evaluation *)

Lemma interpolant_values (g : GridData) (i j : Z) (X Y q00 q01 q10 q11 : Q) :
  sample (gd_data g) i j = Val q00 ->
  sample (gd_data g) i (j + 1) = Val q01 ->
  sample (gd_data g) (i + 1) j = Val q10 ->
  sample (gd_data g) (i + 1) (j + 1) = Val q11 ->
  interpolant g i j X Y
  = Val (bilinear q00 q01 q10 q11
           ((X - coord (gd_x g) j) / (coord (gd_x g) 1 - coord (gd_x g) 0))
           ((Y - coord (gd_y g) i) / (coord (gd_y g) 1 - coord (gd_y g) 0))).
Proof.
  intros H00 H01 H10 H11. unfold interpolant, cell_value. cbv zeta.
  rewrite H00, H01, H10, H11. reflexivity.
Qed.

Lemma getitem_sample (g : GridData) (i j : Z) (c : item) :
  well_formed g = true ->
  (0 <= i < Z.of_nat (length (gd_y g)))%Z ->
  (0 <= j < Z.of_nat (length (gd_x g)))%Z ->
  getitem g i j = Ok c -> sample (gd_data g) i j = c.
Proof.
  intros Hwf Hi Hj H. rewrite (wf_getitem g Hwf i j Hi Hj) in H. congruence.
Qed.

(** C1. On a well-formed grid, when the query point resolves to the cell
    [(i, j)] and the four corner samples are the numbers [q00], [q01],
    [q10], [q11], [evaluate] returns
    [q00 + ax*(q01 - q00) + ay*(q10 - q00) + ax*ay*(q00 + q11 - q10 - q01)]
    with [ax = (X - x[j]) / (x[1] - x[0])] and
    [ay = (Y - y[i]) / (y[1] - y[0])].  On x = [0, 1], y = [0, 1],
    values = [[0, 1], [2, 3]] the value at (0.5, 0.5) is 1.5. *)
Theorem C1_bilinear_formula :
  (forall (g : GridData) (X Y : Q) (i j : Z) (q00 q01 q10 q11 : Q),
      well_formed g = true ->
      _index_of_point (gd_x g) (gd_y g) X Y = Ok (i, j) ->
      getitem g i j = Ok (Val q00) ->
      getitem g i (j + 1) = Ok (Val q01) ->
      getitem g (i + 1) j = Ok (Val q10) ->
      getitem g (i + 1) (j + 1) = Ok (Val q11) ->
      let ax := (X - coord (gd_x g) j) / (coord (gd_x g) 1 - coord (gd_x g) 0) in
      let ay := (Y - coord (gd_y g) i) / (coord (gd_y g) 1 - coord (gd_y g) 0) in
      evaluate g (X, Y)
      = Ok (Val (q00 + ax * (q01 - q00) + ay * (q10 - q00)
                 + ax * ay * (q00 + q11 - q10 - q01))))
  /\ (exists v, evaluate grid_2x2 (1 # 2, 1 # 2) = Ok (Val v) /\ v == 3 # 2).
Proof.
  split.
  - intros g X Y i j q00 q01 q10 q11 Hwf Hidx H00 H01 H10 H11 ax ay.
    destruct (index_of_point_inv _ _ _ _ _ _ (wf_x g Hwf) (wf_y g Hwf) Hidx)
      as (HX & HY & Hi & Hj).
    assert (Hdom : in_domain g (X, Y) = true)
      by (apply in_domain_parts; split; assumption).
    destruct (wf_cell_bounds g Hwf (X, Y) Hdom) as [Bi Bj].
    unfold cell_of in Bi, Bj. cbn [fst snd] in Bi, Bj.
    rewrite <- Hi in Bi. rewrite <- Hj in Bj.
    apply (getitem_sample g) in H00, H01, H10, H11; try assumption; try lia.
    rewrite (wf_evaluate g Hwf (X, Y) Hdom).
    unfold cell_of. cbn [fst snd]. rewrite <- Hi, <- Hj.
    assert (Hm : cell_missing (gd_data g) i j = false)
      by (apply cell_missing_false; now exists q00, q01, q10, q11).
    rewrite Hm.
    rewrite (interpolant_values g i j X Y q00 q01 q10 q11 H00 H01 H10 H11).
    reflexivity.
  - eexists. split; [vm_compute; reflexivity | reflexivity].
Qed.

(** The formula at the point (0.5, 0.5) of a grid with a gap, in a cell
    away from it. *)
Lemma C1_bilinear_formula_witness :
  evaluate grid_gap (1 # 2, 1 # 2)
  = Ok (Val (0 + ((1 # 2) - 0) / (1 - 0) * (1 - 0) + ((1 # 2) - 0) / (1 - 0) * (3 - 0)
             + ((1 # 2) - 0) / (1 - 0) * (((1 # 2) - 0) / (1 - 0)) * (0 + 4 - 3 - 1))).
Proof.
  apply (proj1 C1_bilinear_formula grid_gap (1 # 2) (1 # 2) 0%Z 0%Z 0 1 3 4);
    reflexivity.
Defined.



(** ** The domain rectangle *)

Lemma in_domain_false_iff (g : GridData) (X Y : Q) :
  in_domain g (X, Y) = false <->
  X < coord (gd_x g) 0 \/ last_coord (gd_x g) < X \/
  Y < coord (gd_y g) 0 \/ last_coord (gd_y g) < Y.
Proof.
  unfold in_domain, in_axis. cbn [fst snd].
  rewrite !andb_false_iff, !Qle_bool_false. tauto.
Qed.

Lemma in_domain_corner_low (g : GridData) :
  well_formed g = true ->
  in_domain g (coord (gd_x g) 0, coord (gd_y g) 0) = true.
Proof.
  intros Hwf. apply in_domain_parts. cbn [fst snd].
  pose proof (axis_length _ (wf_x g Hwf)). pose proof (axis_length _ (wf_y g Hwf)).
  split; apply in_axis_iff; (split; [apply Qle_refl|]).
  - apply (axis_le_last _ (wf_x g Hwf) 0). lia.
  - apply (axis_le_last _ (wf_y g Hwf) 0). lia.
Qed.

Lemma in_domain_corner_high (g : GridData) :
  well_formed g = true ->
  in_domain g (last_coord (gd_x g), last_coord (gd_y g)) = true.
Proof.
  intros Hwf. apply in_domain_parts. cbn [fst snd].
  pose proof (axis_length _ (wf_x g Hwf)). pose proof (axis_length _ (wf_y g Hwf)).
  split; apply in_axis_iff; (split; [|apply Qle_refl]).
  - apply (axis_first_le _ (wf_x g Hwf)). lia.
  - apply (axis_first_le _ (wf_y g Hwf)). lia.
Qed.

Lemma evaluate_in_domain_value (g : GridData) (p : Q * Q) :
  well_formed g = true -> in_domain g p = true ->
  is_masked g p = Ok false -> exists v, evaluate g p = Ok (Val v).
Proof.
  intros Hwf Hdom Hmk.
  assert (Hm : cell_missing (gd_data g) (fst (cell_of g p)) (snd (cell_of g p)) = false)
    by (pose proof (wf_is_masked g Hwf p Hdom) as E; rewrite Hmk in E; congruence).
  rewrite (wf_evaluate g Hwf p Hdom), Hm.
  apply cell_missing_false in Hm as (q00 & q01 & q10 & q11 & H00 & H01 & H10 & H11).
  rewrite (interpolant_values g _ _ _ _ q00 q01 q10 q11 H00 H01 H10 H11).
  eexists. reflexivity.
Qed.

(** C3. On a well-formed grid, [evaluate] and [is_masked] fail with the
    out-of-domain error exactly when [X] is outside [[x[0], x[-1]]] or [Y]
    is outside [[y[0], y[-1]]].  The two corners of the domain are inside:
    there [evaluate] returns a number as soon as the resolved cell has no
    masked corner.  Any point to the left of [x[0]] is refused. *)
Theorem C3_domain_boundary (g : GridData) :
  well_formed g = true ->
  let x0 := coord (gd_x g) 0 in
  let xl := last_coord (gd_x g) in
  let y0 := coord (gd_y g) 0 in
  let yl := last_coord (gd_y g) in
  (forall X Y : Q,
      (evaluate g (X, Y) = Err OutOfDomain <-> X < x0 \/ xl < X \/ Y < y0 \/ yl < Y) /\
      (is_masked g (X, Y) = Err OutOfDomain <-> X < x0 \/ xl < X \/ Y < y0 \/ yl < Y)) /\
  (evaluate g (x0, y0) <> Err OutOfDomain /\
   (is_masked g (x0, y0) = Ok false -> exists v, evaluate g (x0, y0) = Ok (Val v))) /\
  (evaluate g (xl, yl) <> Err OutOfDomain /\
   (is_masked g (xl, yl) = Ok false -> exists v, evaluate g (xl, yl) = Ok (Val v))) /\
  (forall eps : Q, 0 < eps ->
      evaluate g (x0 - eps, y0) = Err OutOfDomain /\
      is_masked g (x0 - eps, y0) = Err OutOfDomain).
Proof.
  intros Hwf x0 xl y0 yl.
  assert (Hiff : forall X Y : Q,
    (evaluate g (X, Y) = Err OutOfDomain <-> X < x0 \/ xl < X \/ Y < y0 \/ yl < Y) /\
    (is_masked g (X, Y) = Err OutOfDomain <-> X < x0 \/ xl < X \/ Y < y0 \/ yl < Y)).
  { intros X Y. subst x0 xl y0 yl. rewrite <- (in_domain_false_iff g X Y).
    destruct (in_domain g (X, Y)) eqn:E.
    - rewrite (wf_evaluate g Hwf _ E), (wf_is_masked g Hwf _ E).
      split; split; try discriminate.
      destruct (cell_missing _ _ _); discriminate.
    - rewrite (wf_evaluate_out g Hwf _ E), (wf_is_masked_out g Hwf _ E).
      split; split; reflexivity. }
  split; [exact Hiff|].
  pose proof (in_domain_corner_low g Hwf) as Hlow.
  pose proof (in_domain_corner_high g Hwf) as Hhigh.
  fold x0 y0 in Hlow. fold xl yl in Hhigh.
  split; [|split].
  - split.
    + intros H. apply Hiff in H. apply in_domain_false_iff in H. congruence.
    + apply evaluate_in_domain_value; assumption.
  - split.
    + intros H. apply Hiff in H. apply in_domain_false_iff in H. congruence.
    + apply evaluate_in_domain_value; assumption.
  - intros eps Heps.
    split; apply Hiff; left; lra.
Qed.

(** The two corners of the domain on grids where their cells have no
    masked corner, and two points outside the grid with a gap. *)
Lemma C3_domain_boundary_witness :
  (exists v, evaluate grid_gap (0, 0) = Ok (Val v)) /\
  (exists v, evaluate grid_ones (3, 2) = Ok (Val v)) /\
  evaluate grid_gap (0 - (1 # 2), 0) = Err OutOfDomain /\
  is_masked grid_gap (5, 0) = Err OutOfDomain.
Proof.
  pose proof (C3_domain_boundary grid_gap eq_refl) as Hgap.
  pose proof (C3_domain_boundary grid_ones eq_refl) as Hones.
  cbv zeta in Hgap, Hones.
  destruct Hgap as (Hiff & [_ Hlow] & _ & Heps).
  destruct Hones as (_ & _ & [_ Hhigh] & _).
  split; [apply Hlow; reflexivity|].
  split; [apply Hhigh; reflexivity|].
  split; [apply (Heps (1 # 2)); reflexivity|].
  apply (Hiff 5 0). right; left. reflexivity.
Defined.



(** ** Construction *)

Lemma nd_get_map {A B : Type} (f : A -> B) (a : ndarray A) (i j : Z) :
  nd_get (nd_map f a) i j = (c <- nd_get a i j ;; Ok (f c)).
Proof.
  unfold nd_get, nd_map, nrows. cbn [rows ncols]. rewrite length_map.
  destruct (norm_index (length (rows a)) i) as [r|]; [|reflexivity].
  destruct (norm_index (ncols a) j) as [c|]; [|reflexivity].
  rewrite nth_error_map.
  destruct (nth_error (rows a) r) as [row|]; [|reflexivity].
  cbn [option_map]. rewrite nth_error_map.
  destruct (nth_error row c); reflexivity.
Qed.

Lemma ma_get_view (q : masked_array) (i j : Z) :
  ma_get q i j = nd_get (view q) i j.
Proof. unfold ma_get, view. now rewrite nd_get_map. Qed.

(** [evaluate] and [is_masked] read the samples through indexing only. *)
Lemma is_missing_view (q q' : masked_array) (i j : Z) :
  view q = view q' -> _is_missing q i j = _is_missing q' i j.
Proof.
  intros H. unfold _is_missing, corners. cbn [collect fst snd].
  rewrite !ma_get_view, H. reflexivity.
Qed.

Lemma is_masked_view (g g' : GridData) (p : Q * Q) :
  gd_x g = gd_x g' -> gd_y g = gd_y g' -> view (gd_data g) = view (gd_data g') ->
  is_masked g p = is_masked g' p.
Proof.
  intros Hx Hy Hv. unfold is_masked. rewrite Hx, Hy.
  destruct (_index_of_point _ _ _ _) as [[i j]|e]; [|reflexivity].
  cbn [bind]. now apply is_missing_view.
Qed.

Lemma evaluate_view (g g' : GridData) (p : Q * Q) :
  gd_x g = gd_x g' -> gd_y g = gd_y g' -> view (gd_data g) = view (gd_data g') ->
  evaluate g p = evaluate g' p.
Proof.
  intros Hx Hy Hv. unfold evaluate, _bilinear_interp, getitem. rewrite Hx, Hy.
  destruct (_index_of_point _ _ _ _) as [[i j]|e]; [|reflexivity].
  cbn [bind]. rewrite (is_missing_view _ _ i j Hv).
  rewrite !ma_get_view, Hv. reflexivity.
Qed.

Lemma combine_fst_snd {A B : Type} (l : list (A * B)) :
  combine (map fst l) (map snd l) = l.
Proof.
  induction l as [|[a b] l IH]; [reflexivity|]. cbn. now rewrite IH.
Qed.

Lemma zip_split_rows (rs : list (list (Q * bool))) :
  map (fun dm => zip_rows (fst dm) (snd dm))
      (combine (map (map fst) rs) (map (map snd) rs)) = rs.
Proof.
  induction rs as [|r rs IH]; [reflexivity|].
  cbn [map combine fst snd]. rewrite IH. unfold zip_rows.
  now rewrite combine_fst_snd.
Qed.

Lemma MaskedArray_error (a : ndarray Q) (mk : ndarray bool) (e : error) :
  MaskedArray a mk = Err e -> e = MaskError.
Proof.
  unfold MaskedArray.
  repeat match goal with |- context [if ?b then _ else _] => destruct b end;
    congruence.
Qed.

(** Splitting a masked array into numbers and mask and putting them
    together again gives the array back. *)
Lemma MaskedArray_split (m : masked_array) :
  MaskedArray (ma_values m) (ma_mask m) = Ok m.
Proof.
  unfold MaskedArray, ma_values, ma_mask, nd_map, nrows. cbn [rows ncols].
  rewrite !length_map, !Nat.eqb_refl. cbn [andb].
  rewrite zip_split_rows. now destruct m.
Qed.

Lemma masked_equal_filled_row (s : Q) (r : list (Q * bool)) :
  forallb (fun c : Q * bool => snd c || negb (Qeq_bool (fst c) s)) r = true ->
  map item_of (map (fun v => (v, Qeq_bool v s))
                   (map (fun c : Q * bool => if snd c then s else fst c) r))
  = map item_of r.
Proof.
  induction r as [|[v b] r IH]; [reflexivity|].
  cbn [forallb map fst snd]. intros H. apply andb_prop in H as [Hc Hr].
  rewrite (IH Hr). f_equal.
  unfold item_of. cbn [fst snd]. destruct b; cbn [fst snd].
  - assert (E : Qeq_bool s s = true) by (apply Qeq_bool_iff; reflexivity).
    now rewrite E.
  - cbn in Hc. apply negb_true_iff in Hc. now rewrite Hc.
Qed.

(** Masking the sentinel in the filled array shows the same samples as
    the masked array. *)
Lemma masked_equal_filled (m : masked_array) (s : Q) :
  sentinel_free m s = true ->
  view (masked_equal (filled m s) s) = view m.
Proof.
  unfold sentinel_free, view, masked_equal, filled, nd_map. cbn [rows ncols].
  intros H. f_equal.
  induction (rows m) as [|r rs IH]; [reflexivity|].
  cbn [forallb] in H. apply andb_prop in H as [Hr Hrs].
  cbn [map]. rewrite (masked_equal_filled_row s r Hr). f_equal. exact (IH Hrs).
Qed.

Example three_specs_accepted :
  mask_specs (PreMasked (gd_data grid_2x2))
    (Some (mk_ndarray 2 [[false; false]; [false; false]])) (Some 0) = 3%nat /\
  three_specs = Ok grid_2x2.
Proof. split; reflexivity. Qed.

(** C5 does not hold with exactly one specification required:
    construction succeeds when all three mask specifications are given. *)
Lemma C5_exactly_one_counterexample :
  ~ (forall (x y : list Q) (data : data_arg) (mask : option (ndarray bool))
            (missing_data_value : option Q),
        (mask_specs data mask missing_data_value = 0%nat ->
         GridData_init x y data mask missing_data_value = Err UnspecifiedMask) /\
        (is_ok (GridData_init x y data mask missing_data_value) = true ->
         mask_specs data mask missing_data_value = 1%nat)).
Proof.
  intros H.
  destruct (H [0; 1] [0; 1] (PreMasked (gd_data grid_2x2))
              (Some (mk_ndarray 2 [[false; false]; [false; false]])) (Some 0))
    as [_ H1].
  specialize (H1 eq_refl). discriminate H1.
Qed.

(** C5.  When the data has the shape [(len(y), len(x))]:
    construction fails with the missing-mask-specification error exactly
    when none of the three specifications is given; a masked array is
    taken as it is whatever else is given; otherwise a sentinel is used
    whatever mask is given; otherwise the mask is used, and the
    construction succeeds when the mask has the shape of the data. *)
Theorem C5_mask_specification (x y : list Q) (data : data_arg)
    (mask : option (ndarray bool)) (missing_data_value : option Q) :
  data_shape data = (length y, length x) ->
  (GridData_init x y data mask missing_data_value = Err UnspecifiedMask
   <-> mask_specs data mask missing_data_value = 0%nat) /\
  (forall m, data = PreMasked m ->
     GridData_init x y data mask missing_data_value = Ok (mk_GridData x y m)) /\
  (forall a v, data = PlainArray a -> missing_data_value = Some v ->
     GridData_init x y data mask missing_data_value
     = Ok (mk_GridData x y (masked_equal a v))) /\
  (forall a mk, data = PlainArray a -> missing_data_value = None -> mask = Some mk ->
     GridData_init x y data mask missing_data_value
     = (m <- MaskedArray a mk ;; Ok (mk_GridData x y m)) /\
     (shape mk = shape a ->
      is_ok (GridData_init x y data mask missing_data_value) = true)).
Proof.
  intros Hshape. unfold GridData_init. rewrite Hshape.
  rewrite !Nat.eqb_refl. cbn [negb orb].
  split; [|split; [|split]].
  - destruct data as [a|m], missing_data_value as [v|], mask as [mk|];
      cbn; split; try discriminate; try reflexivity.
    destruct (MaskedArray a mk) as [m|e] eqn:E; [discriminate|].
    apply MaskedArray_error in E. subst e. discriminate.
  - intros m ->. reflexivity.
  - intros a v -> ->. reflexivity.
  - intros a mk -> -> ->. split; [reflexivity|].
    intros Hs. unfold shape in Hs. injection Hs as Hr Hc.
    unfold MaskedArray. rewrite Hr, Hc, !Nat.eqb_refl. reflexivity.
Qed.

(** A call that gives all three specifications, and one that gives
    none. *)
Lemma C5_mask_specification_witness :
  three_specs = Ok (mk_GridData [0; 1] [0; 1] (gd_data grid_2x2)) /\
  GridData_init [0; 1] [0; 1] (PlainArray (ma_values (gd_data grid_2x2))) None None
  = Err UnspecifiedMask.
Proof.
  split.
  - apply (proj1 (proj2 (C5_mask_specification [0; 1] [0; 1]
             (PreMasked (gd_data grid_2x2))
             (Some (mk_ndarray 2 [[false; false]; [false; false]])) (Some 0) eq_refl))).
    reflexivity.
  - apply (proj2 (proj1 (C5_mask_specification [0; 1] [0; 1]
             (PlainArray (ma_values (gd_data grid_2x2))) None None eq_refl))).
    reflexivity.
Defined.

(** C6. One set of missing cells given three ways, as a masked array
    [m], as its numbers with its mask, and as the numbers with the
    missing entries replaced by a sentinel that is none of the valid
    samples: the three constructions succeed, and [evaluate] and
    [is_masked] return the same result on the three grids at every
    point. *)
Theorem C6_mask_encodings_agree (x y : list Q) (m : masked_array) (s : Q) :
  shape m = (length y, length x) ->
  sentinel_free m s = true ->
  exists ga gb gc : GridData,
    GridData_init x y (PreMasked m) None None = Ok ga /\
    GridData_init x y (PlainArray (ma_values m)) (Some (ma_mask m)) None = Ok gb /\
    GridData_init x y (PlainArray (filled m s)) None (Some s) = Ok gc /\
    forall p : Q * Q,
      evaluate gb p = evaluate ga p /\ evaluate gc p = evaluate ga p /\
      is_masked gb p = is_masked ga p /\ is_masked gc p = is_masked ga p.
Proof.
  intros Hshape Hs.
  exists (mk_GridData x y m), (mk_GridData x y m),
    (mk_GridData x y (masked_equal (filled m s) s)).
  assert (Hv : shape (ma_values m) = shape m)
    by (unfold shape, ma_values, nd_map, nrows; cbn; now rewrite length_map).
  assert (Hf : shape (filled m s) = shape m)
    by (unfold shape, filled, nd_map, nrows; cbn; now rewrite length_map).
  unfold GridData_init. cbn [data_shape]. rewrite Hv, Hf, Hshape.
  rewrite !Nat.eqb_refl. cbn [negb orb].
  rewrite MaskedArray_split. cbn [bind].
  do 3 (split; [reflexivity|]).
  intros pt.
  pose proof (masked_equal_filled m s Hs) as Hview.
  repeat split; try reflexivity.
  - now apply evaluate_view.
  - now apply is_masked_view.
Qed.

(** The grid with a gap, with the sentinel -1. *)
Lemma C6_mask_encodings_agree_witness :
  exists ga gb gc : GridData,
    GridData_init [0; 1; 2] [0; 1] (PreMasked (gd_data grid_gap)) None None = Ok ga /\
    GridData_init [0; 1; 2] [0; 1] (PlainArray (ma_values (gd_data grid_gap)))
      (Some (ma_mask (gd_data grid_gap))) None = Ok gb /\
    GridData_init [0; 1; 2] [0; 1] (PlainArray (filled (gd_data grid_gap) (-1)))
      None (Some (-1)) = Ok gc /\
    forall p : Q * Q,
      evaluate gb p = evaluate ga p /\ evaluate gc p = evaluate ga p /\
      is_masked gb p = is_masked ga p /\ is_masked gc p = is_masked ga p.
Proof.
  apply (C6_mask_encodings_agree [0; 1; 2] [0; 1] (gd_data grid_gap) (-1));
    reflexivity.
Defined.

(** ** Sub-region extraction *)

Lemma slice_len_range (n : nat) (a b : Z) :
  (0 <= a <= b)%Z -> (b <= Z.of_nat n)%Z ->
  norm_bound n a = Z.to_nat a /\ slice_len n a b = Z.to_nat (b - a).
Proof.
  intros Ha Hb. unfold slice_len. rewrite !norm_bound_nonneg by lia. lia.
Qed.

Lemma nrows_nd_slice {A : Type} (a : ndarray A) (i0 i1 j0 j1 : Z) :
  nrows (nd_slice a i0 i1 j0 j1) = slice_len (nrows a) i0 i1.
Proof.
  unfold nd_slice, nrows. cbn [rows]. now rewrite length_map, length_py_slice.
Qed.

Lemma In_py_slice {A : Type} (l : list A) (a b : Z) (v : A) :
  In v (py_slice l a b) -> In v l.
Proof.
  unfold py_slice. intros H.
  rewrite <- (firstn_skipn (norm_bound (length l) a) l). apply in_or_app. right.
  rewrite <- (firstn_skipn (slice_len (length l) a b) (skipn (norm_bound (length l) a) l)).
  apply in_or_app. now left.
Qed.

Lemma rectangularb_nd_slice {A : Type} (a : ndarray A) (i0 i1 j0 j1 : Z) :
  rectangularb a = true -> rectangularb (nd_slice a i0 i1 j0 j1) = true.
Proof.
  unfold rectangularb, nd_slice. cbn [rows ncols]. rewrite !forallb_forall.
  intros H r Hr. apply in_map_iff in Hr as (r0 & <- & Hr0).
  apply In_py_slice in Hr0. specialize (H r0 Hr0). apply Nat.eqb_eq in H.
  apply Nat.eqb_eq. now rewrite length_py_slice, H.
Qed.

(** The nested construction of line 102 takes the masked-array branch and
    its shape check passes. *)
Lemma init_slices (g : GridData) (imin imax jmin jmax : Z) :
  nrows (gd_data g) = length (gd_y g) ->
  ncols (gd_data g) = length (gd_x g) ->
  GridData_init (py_slice (gd_x g) jmin (jmax + 2)) (py_slice (gd_y g) imin (imax + 2))
    (PreMasked (nd_slice (gd_data g) imin (imax + 2) jmin (jmax + 2))) None None
  = Ok (subset_grid g imin imax jmin jmax).
Proof.
  intros Hr Hc. unfold GridData_init. cbn [data_shape]. unfold shape.
  rewrite nrows_nd_slice. cbn [nd_slice ncols].
  rewrite !length_py_slice, Hr, Hc, !Nat.eqb_refl. reflexivity.
Qed.

Lemma py_get_error {A : Type} (l : list A) (k : Z) (e : error) :
  py_get l k = Err e -> e = IndexError.
Proof.
  unfold py_get. destruct (norm_index _ _); [destruct (nth_error _ _)|]; congruence.
Qed.

Lemma int_div_error (a b : Q) (e : error) : int_div a b = Err e -> e = NonFinite.
Proof. unfold int_div. destruct (Qeq_bool b 0); congruence. Qed.

Lemma between_error (x : list Q) (X : Q) (e : error) :
  between x X = Err e -> e = IndexError.
Proof.
  unfold between. destruct (py_get x 0) as [x0|e0] eqn:E0; cbn [bind].
  - destruct (Qle_bool x0 X); [|discriminate].
    destruct (py_get x (-1)) as [xl|e1] eqn:E1; cbn [bind]; [discriminate|].
    intros [= <-]. now apply py_get_error in E1.
  - intros [= <-]. now apply py_get_error in E0.
Qed.

(** The errors [_index_of_point] can raise. *)
Lemma index_of_point_error (x y : list Q) (X Y : Q) (e : error) :
  _index_of_point x y X Y = Err e ->
  e = OutOfDomain \/ e = IndexError \/ e = NonFinite.
Proof.
  unfold _index_of_point.
  destruct (between x X) as [inx|e0] eqn:E0; cbn [bind];
    [|intros [= <-]; apply between_error in E0; auto].
  destruct (if inx then between y Y else Ok false) as [inside|e1] eqn:E1; cbn [bind].
  2:{ intros [= <-]. destruct inx; [|discriminate].
      apply between_error in E1; auto. }
  destruct inside; cbn [negb]; [|intros [= <-]; auto].
  repeat match goal with
  | |- bind (py_get ?l ?k) _ = _ -> _ =>
      let E := fresh "E" in
      destruct (py_get l k) eqn:E; cbn [bind];
      [|intros [= <-]; apply py_get_error in E; auto]
  | |- bind (int_div ?a ?b) _ = _ -> _ =>
      let E := fresh "E" in
      destruct (int_div a b) eqn:E; cbn [bind];
      [|intros [= <-]; apply int_div_error in E; auto]
  end.
  discriminate.
Qed.

(** Whatever the rectangle, [subset] on a grid of consistent shape never
    fails in its nested construction. *)
Lemma subset_error (g : GridData) (xmin ymin xmax ymax : Q) (e : error) :
  nrows (gd_data g) = length (gd_y g) ->
  ncols (gd_data g) = length (gd_x g) ->
  subset g xmin ymin xmax ymax = Err e ->
  e = OutOfDomain \/ e = IndexError \/ e = NonFinite.
Proof.
  intros Hr Hc. unfold subset.
  repeat match goal with
  | |- bind (py_get ?l ?k) _ = _ -> _ =>
      let E := fresh "E" in
      destruct (py_get l k) eqn:E; cbn [bind];
      [|intros [= <-]; apply py_get_error in E; auto]
  end.
  destruct (_index_of_point _ _ _ _) as [[imin jmin]|e0] eqn:Elo; cbn [bind];
    [|intros [= <-]; now apply index_of_point_error in Elo].
  clear Elo.
  destruct (_index_of_point _ _ _ _) as [[imax jmax]|e1] eqn:Ehi; cbn [bind];
    [|intros [= <-]; now apply index_of_point_error in Ehi].
  rewrite (init_slices g imin imax jmin jmax Hr Hc). discriminate.
Qed.

Section Subset.

Variable g : GridData.
Hypothesis Hwf : well_formed g = true.
Variables xmin ymin xmax ymax : Q.

Let lo := clamp_low g xmin ymin.
Let hi := clamp_high g xmax ymax.

Lemma subset_unfold :
  subset g xmin ymin xmax ymax =
    ('(imin, jmin) <- _index_of_point (gd_x g) (gd_y g) (fst lo) (snd lo) ;;
     '(imax, jmax) <- _index_of_point (gd_x g) (gd_y g) (fst hi) (snd hi) ;;
     Ok (subset_grid g imin imax jmin jmax)).
Proof.
  unfold subset.
  rewrite (axis_get_0 _ (wf_x g Hwf)), (axis_get_0 _ (wf_y g Hwf)).
  rewrite (axis_get_last _ (wf_x g Hwf)), (axis_get_last _ (wf_y g Hwf)).
  cbn [bind]. unfold lo, hi, clamp_low, clamp_high. cbn [fst snd].
  destruct (_index_of_point _ _ _ _) as [[imin jmin]|]; [|reflexivity].
  cbn [bind].
  destruct (_index_of_point _ _ _ _) as [[imax jmax]|]; [|reflexivity].
  cbn [bind]. apply init_slices; [apply (wf_nrows g Hwf) | apply (wf_ncols g Hwf)].
Qed.

Lemma clamp_low_in_domain :
  in_domain g lo = true <->
  xmin <= last_coord (gd_x g) /\ ymin <= last_coord (gd_y g).
Proof.
  unfold lo, clamp_low. rewrite in_domain_parts. cbn [fst snd].
  rewrite !in_axis_iff.
  pose proof (py_max_spec xmin (coord (gd_x g) 0)) as [Hx1 Hx2].
  pose proof (py_max_spec ymin (coord (gd_y g) 0)) as [Hy1 Hy2].
  pose proof (in_domain_corner_low g Hwf) as Hc.
  apply in_domain_parts in Hc as [Hcx Hcy]. cbn [fst snd] in Hcx, Hcy.
  apply in_axis_iff in Hcx, Hcy.
  split.
  - intros [[_ Hx] [_ Hy]]. split; lra.
  - intros [Hx Hy]. unfold py_max in *.
    destruct (Qle_bool (coord (gd_x g) 0) xmin), (Qle_bool (coord (gd_y g) 0) ymin);
      repeat split; lra.
Qed.

Lemma clamp_high_in_domain :
  in_domain g hi = true <->
  coord (gd_x g) 0 <= xmax /\ coord (gd_y g) 0 <= ymax.
Proof.
  unfold hi, clamp_high. rewrite in_domain_parts. cbn [fst snd].
  rewrite !in_axis_iff.
  pose proof (py_min_spec xmax (last_coord (gd_x g))) as [Hx1 Hx2].
  pose proof (py_min_spec ymax (last_coord (gd_y g))) as [Hy1 Hy2].
  pose proof (in_domain_corner_low g Hwf) as Hc.
  apply in_domain_parts in Hc as [Hcx Hcy]. cbn [fst snd] in Hcx, Hcy.
  apply in_axis_iff in Hcx, Hcy.
  split.
  - intros [[Hx _] [Hy _]]. split; lra.
  - intros [Hx Hy]. unfold py_min in *.
    destruct (Qle_bool xmax (last_coord (gd_x g))), (Qle_bool ymax (last_coord (gd_y g)));
      repeat split; lra.
Qed.

Lemma subset_in :
  in_domain g lo = true -> in_domain g hi = true ->
  subset g xmin ymin xmax ymax
  = Ok (subset_grid g (fst (cell_of g lo)) (fst (cell_of g hi))
                      (snd (cell_of g lo)) (snd (cell_of g hi))).
Proof.
  intros Hlo Hhi. rewrite subset_unfold.
  rewrite (wf_index g Hwf lo Hlo), (wf_index g Hwf hi Hhi).
  reflexivity.
Qed.

Lemma subset_out :
  in_domain g lo && in_domain g hi = false ->
  subset g xmin ymin xmax ymax = Err OutOfDomain.
Proof.
  intros H. rewrite subset_unfold.
  destruct (in_domain g lo) eqn:Hlo.
  - cbn in H. rewrite (wf_index g Hwf lo Hlo). cbn [bind].
    now rewrite (wf_index_out g Hwf hi H).
  - now rewrite (wf_index_out g Hwf lo Hlo).
Qed.

End Subset.

(** ** The sub-grid of a cell range *)

Lemma nth_map_in {A B : Type} (f : A -> B) (l : list A) (k : nat) (d : A) (d' : B) :
  (k < length l)%nat -> nth k (map f l) d' = f (nth k l d).
Proof.
  intros H. rewrite (nth_indep _ d' (f d)) by now rewrite length_map.
  apply map_nth.
Qed.

Section SubGrid.

Variable g : GridData.
Hypothesis Hwf : well_formed g = true.
Variables imin imax jmin jmax : Z.
Hypothesis Hi : (0 <= imin <= imax)%Z.
Hypothesis Hi' : (imax <= Z.of_nat (length (gd_y g)) - 2)%Z.
Hypothesis Hj : (0 <= jmin <= jmax)%Z.
Hypothesis Hj' : (jmax <= Z.of_nat (length (gd_x g)) - 2)%Z.

Let s := subset_grid g imin imax jmin jmax.

Lemma sub_length_x : length (gd_x s) = Z.to_nat (jmax + 2 - jmin).
Proof.
  unfold s, subset_grid. cbn [gd_x]. rewrite length_py_slice.
  apply slice_len_range; lia.
Qed.

Lemma sub_length_y : length (gd_y s) = Z.to_nat (imax + 2 - imin).
Proof.
  unfold s, subset_grid. cbn [gd_y]. rewrite length_py_slice.
  apply slice_len_range; lia.
Qed.

Lemma sub_coord_x (k : Z) :
  (0 <= k < jmax + 2 - jmin)%Z -> coord (gd_x s) k = coord (gd_x g) (jmin + k).
Proof.
  intros Hk. unfold coord, s, subset_grid. cbn [gd_x].
  destruct (slice_len_range (length (gd_x g)) jmin (jmax + 2)) as [Hb Hl]; [lia | lia |].
  rewrite nth_py_slice by lia. rewrite Hb. f_equal. lia.
Qed.

Lemma sub_coord_y (k : Z) :
  (0 <= k < imax + 2 - imin)%Z -> coord (gd_y s) k = coord (gd_y g) (imin + k).
Proof.
  intros Hk. unfold coord, s, subset_grid. cbn [gd_y].
  destruct (slice_len_range (length (gd_y g)) imin (imax + 2)) as [Hb Hl]; [lia | lia |].
  rewrite nth_py_slice by lia. rewrite Hb. f_equal. lia.
Qed.

Lemma sub_last_x : last_coord (gd_x s) = coord (gd_x g) (jmax + 1).
Proof.
  unfold last_coord. rewrite sub_length_x.
  replace (Z.to_nat (jmax + 2 - jmin) - 1)%nat with (Z.to_nat (jmax + 1 - jmin)) by lia.
  change (nth (Z.to_nat (jmax + 1 - jmin)) (gd_x s) 0) with (coord (gd_x s) (jmax + 1 - jmin)).
  rewrite sub_coord_x by lia. f_equal. lia.
Qed.

Lemma sub_last_y : last_coord (gd_y s) = coord (gd_y g) (imax + 1).
Proof.
  unfold last_coord. rewrite sub_length_y.
  replace (Z.to_nat (imax + 2 - imin) - 1)%nat with (Z.to_nat (imax + 1 - imin)) by lia.
  change (nth (Z.to_nat (imax + 1 - imin)) (gd_y s) 0) with (coord (gd_y s) (imax + 1 - imin)).
  rewrite sub_coord_y by lia. f_equal. lia.
Qed.

Lemma sub_well_formed : well_formed s = true.
Proof.
  destruct (wf_parts g Hwf) as (Hx & Hy & Hnr & Hnc & Hrect).
  destruct (slice_len_range (length (gd_x g)) jmin (jmax + 2)) as [_ Hlj]; [lia | lia |].
  destruct (slice_len_range (length (gd_y g)) imin (imax + 2)) as [_ Hli]; [lia | lia |].
  unfold well_formed, axis_ok.
  unfold s, subset_grid. cbn [gd_x gd_y gd_data].
  rewrite !increasingb_slice by (now apply axis_increasing).
  rewrite nrows_nd_slice. cbn [nd_slice ncols].
  rewrite rectangularb_nd_slice by assumption.
  rewrite !length_py_slice, Hnr, Hnc, !Nat.eqb_refl, Hlj, Hli.
  replace (2 <=? Z.to_nat (jmax + 2 - jmin))%nat with true
    by (symmetry; apply Nat.leb_le; lia).
  replace (2 <=? Z.to_nat (imax + 2 - imin))%nat with true
    by (symmetry; apply Nat.leb_le; lia).
  reflexivity.
Qed.

(** The samples of the sub-grid are those of the parent, mask included. *)
Lemma sub_sample (a b : Z) :
  (0 <= a < imax + 2 - imin)%Z -> (0 <= b < jmax + 2 - jmin)%Z ->
  sample (gd_data s) a b = sample (gd_data g) (imin + a) (jmin + b).
Proof.
  intros Ha Hb.
  destruct (wf_parts g Hwf) as (Hx & Hy & Hnr & Hnc & Hrect).
  pose proof Hnr as Hnr'. unfold nrows in Hnr'.
  unfold sample, s, subset_grid. cbn [gd_data nd_slice rows]. f_equal.
  destruct (slice_len_range (length (rows (gd_data g))) imin (imax + 2))
    as [Hbi Hli]; [lia | lia |].
  rewrite (nth_map_in _ _ _ []) by (rewrite length_py_slice; lia).
  rewrite (nth_py_slice (rows (gd_data g)) imin (imax + 2) (Z.to_nat a) []) by lia.
  rewrite Hbi.
  replace (Z.to_nat imin + Z.to_nat a)%nat with (Z.to_nat (imin + a)) by lia.
  assert (Hrow : length (nth (Z.to_nat (imin + a)) (rows (gd_data g)) []) = length (gd_x g)).
  { rewrite <- Hnc. apply rectangularb_row; [assumption|]. unfold nrows. lia. }
  destruct (slice_len_range (length (gd_x g)) jmin (jmax + 2)) as [Hbj Hlj]; [lia | lia |].
  rewrite nth_py_slice by (rewrite Hrow; lia).
  rewrite Hrow, Hbj. f_equal. lia.
Qed.

Lemma sub_getitem (a b : Z) :
  (0 <= a < imax + 2 - imin)%Z -> (0 <= b < jmax + 2 - jmin)%Z ->
  getitem s a b = getitem g (imin + a) (jmin + b).
Proof.
  intros Ha Hb.
  rewrite (wf_getitem s sub_well_formed) by (rewrite ?sub_length_x, ?sub_length_y; lia).
  rewrite (wf_getitem g Hwf) by lia.
  now rewrite sub_sample.
Qed.

End SubGrid.

(** ** Claims on [subset] *)

(** A rectangle beyond the domain of the all-ones grid: the clamped
    lower corner is (10, 10), outside [[0, 3] x [0, 2]]. *)
Example subset_beyond_domain :
  clamp_low grid_ones 10 10 = (10, 10) /\
  _index_of_point (gd_x grid_ones) (gd_y grid_ones) 10 10 = Err OutOfDomain /\
  subset grid_ones 10 10 11 11 = Err OutOfDomain.
Proof. repeat split; reflexivity. Qed.






(** ** Uniform axes *)

Lemma Qfloor_shift (q : Q) (a : Z) : Qfloor (q - inject_Z a) = (Qfloor q - a)%Z.
Proof.
  apply Qfloor_unique.
  - pose proof (Qfloor_le q). unfold Z.sub. rewrite inject_Z_plus, inject_Z_opp. lra.
  - pose proof (Qlt_floor q) as H.
    replace (Qfloor q - a + 1)%Z with (Qfloor q + 1 + - a)%Z by lia.
    rewrite inject_Z_plus, inject_Z_opp. lra.
Qed.

Lemma Qdiv_eq_r (u h h' : Q) : h' == h -> u / h' == u / h.
Proof. intros H. now rewrite H. Qed.

Section UniformAxis.

Variable l : list Q.
Hypothesis Hax : axis_ok l = true.
Hypothesis Hun : uniformb l = true.

Lemma uniform_step_pos : 0 < (coord l 1 - coord l 0).
Proof. pose proof (axis_step_pos l Hax). lra. Qed.

Lemma uniform_coord (k : Z) :
  (0 <= k < Z.of_nat (length l))%Z -> coord l k == coord l 0 + inject_Z k * (coord l 1 - coord l 0).
Proof.
  intros Hk. unfold coord at 1. rewrite (uniformb_coord l (Z.to_nat k) Hun) by lia.
  rewrite Z2Nat.id by lia. reflexivity.
Qed.

Lemma grid_position_le (X : Q) (k : Z) :
  (0 <= k < Z.of_nat (length l))%Z ->
  (X <= coord l k <-> grid_position l X <= inject_Z k).
Proof.
  intros Hk. rewrite (uniform_coord k Hk). unfold grid_position.
  pose proof uniform_step_pos as Hh. split; intros H.
  - apply Qle_shift_div_r; [exact Hh | lra].
  - assert (H' : (X - coord l 0) / (coord l 1 - coord l 0) * (coord l 1 - coord l 0)
                 <= inject_Z k * (coord l 1 - coord l 0))
      by (apply Qmult_le_compat_r; lra).
    assert (E : (X - coord l 0) / (coord l 1 - coord l 0) * (coord l 1 - coord l 0)
                == X - coord l 0) by (field; lra).
    rewrite E in H'. lra.
Qed.

Lemma grid_position_ge (X : Q) (k : Z) :
  (0 <= k < Z.of_nat (length l))%Z ->
  (coord l k <= X <-> inject_Z k <= grid_position l X).
Proof.
  intros Hk. rewrite (uniform_coord k Hk). unfold grid_position.
  pose proof uniform_step_pos as Hh. split; intros H.
  - apply Qle_shift_div_l; [exact Hh | lra].
  - assert (H' : inject_Z k * (coord l 1 - coord l 0)
                 <= (X - coord l 0) / (coord l 1 - coord l 0) * (coord l 1 - coord l 0))
      by (apply Qmult_le_compat_r; lra).
    assert (E : (X - coord l 0) / (coord l 1 - coord l 0) * (coord l 1 - coord l 0)
                == X - coord l 0) by (field; lra).
    rewrite E in H'. lra.
Qed.

Lemma grid_position_eq (X : Q) (k : Z) :
  (0 <= k < Z.of_nat (length l))%Z ->
  grid_position l X == inject_Z k -> X == coord l k.
Proof.
  intros Hk H. apply Qle_antisym.
  - apply (grid_position_le X k Hk). lra.
  - apply (grid_position_ge X k Hk). lra.
Qed.

Lemma cell_index_position (X : Q) :
  coord l 0 <= X ->
  cell_index l X = Z.min (Qfloor (grid_position l X)) (Z.of_nat (length l) - 2).
Proof. apply cell_index_floor. exact Hax. Qed.

(** The normalised offset of [X] from the grid line [k]. *)
Lemma offset_position (X : Q) (k : Z) :
  (0 <= k < Z.of_nat (length l))%Z ->
  (X - coord l k) / (coord l 1 - coord l 0) == grid_position l X - inject_Z k.
Proof.
  intros Hk. rewrite (uniform_coord k Hk). unfold grid_position.
  pose proof uniform_step_pos as Hh. field. lra.
Qed.

(** The cell of a point contains it. *)
Lemma cell_contains (X : Q) :
  in_axis l X = true ->
  coord l (cell_index l X) <= X /\ X <= coord l (cell_index l X + 1).
Proof.
  intros HX. apply in_axis_iff in HX as [H0 Hl].
  pose proof (axis_length l Hax) as Hlen.
  pose proof (cell_index_bounds l Hax X H0) as Hb.
  pose proof (cell_index_position X H0) as Hc.
  pose proof (Qfloor_le (grid_position l X)) as F1.
  pose proof (Qlt_floor (grid_position l X)) as F2.
  split.
  - apply grid_position_ge; [lia|].
    apply Qle_trans with (inject_Z (Qfloor (grid_position l X))); [|exact F1].
    rewrite <- Zle_Qle. lia.
  - destruct (Z.le_gt_cases (Qfloor (grid_position l X)) (Z.of_nat (length l) - 2)) as [Hle|Hgt].
    + apply grid_position_le; [lia|].
      replace (cell_index l X) with (Qfloor (grid_position l X)) by lia. lra.
    + replace (cell_index l X + 1)%Z with (Z.of_nat (length l) - 1)%Z by lia.
      unfold coord. replace (Z.to_nat (Z.of_nat (length l) - 1)) with (length l - 1)%nat by lia.
      exact Hl.
Qed.

(** The cell of the grid line [k], and the offset of the line in it. *)
Lemma cell_of_grid_line (k : Z) :
  (0 <= k < Z.of_nat (length l))%Z ->
  let c := cell_index l (coord l k) in
  (c = k /\ (coord l k - coord l c) / (coord l 1 - coord l 0) == 0) \/
  (c + 1 = k /\ (coord l k - coord l c) / (coord l 1 - coord l 0) == 1)%Z.
Proof.
  intros Hk c.
  pose proof (axis_length l Hax) as Hlen.
  assert (H0 : coord l 0 <= coord l k)
    by (apply (axis_first_le l Hax); lia).
  assert (Hp : grid_position l (coord l k) == inject_Z k).
  { unfold grid_position. rewrite (uniform_coord k Hk).
    pose proof uniform_step_pos as Hh. field. lra. }
  assert (Hf : Qfloor (grid_position l (coord l k)) = k)
    by (rewrite Hp; apply Qfloor_Z).
  assert (Hc : c = Z.min k (Z.of_nat (length l) - 2))
    by (unfold c; rewrite (cell_index_position _ H0), Hf; reflexivity).
  destruct (Z.le_gt_cases k (Z.of_nat (length l) - 2)) as [Hle|Hgt].
  - left. assert (c = k) as -> by lia. split; [reflexivity|].
    rewrite (offset_position _ k Hk), Hp. ring.
  - right. assert (Hck : (c + 1 = k)%Z) by lia. split; [exact Hck|].
    rewrite (offset_position _ c) by lia. rewrite Hp, <- Hck.
    rewrite inject_Z_plus. ring.
Qed.

End UniformAxis.

(** ** Exactness at the sample points *)

Lemma bilinear_compat (q00 q01 q10 q11 ax ay ax' ay' : Q) :
  ax == ax' -> ay == ay' ->
  bilinear q00 q01 q10 q11 ax ay == bilinear q00 q01 q10 q11 ax' ay'.
Proof. intros Hx Hy. unfold bilinear. rewrite Hx, Hy. reflexivity. Qed.

Lemma bilinear_corners (q00 q01 q10 q11 : Q) :
  bilinear q00 q01 q10 q11 0 0 == q00 /\ bilinear q00 q01 q10 q11 1 0 == q01 /\
  bilinear q00 q01 q10 q11 0 1 == q10 /\ bilinear q00 q01 q10 q11 1 1 == q11.
Proof. unfold bilinear. repeat split; ring. Qed.

Lemma uniform_grid_parts (g : GridData) :
  uniform_grid g = true -> uniformb (gd_x g) = true /\ uniformb (gd_y g) = true.
Proof. unfold uniform_grid. apply andb_prop. Qed.



(** ** A sub-range of a uniform axis *)

Section SubAxis.

Variables l l' : list Q.
Variables a b : Z.
Hypothesis Hax : axis_ok l = true.
Hypothesis Hun : uniformb l = true.
Hypothesis Hax' : axis_ok l' = true.
Hypothesis Hab : (0 <= a <= b)%Z.
Hypothesis Hbn : (b <= Z.of_nat (length l) - 2)%Z.
Hypothesis Hlen : length l' = Z.to_nat (b + 2 - a).
Hypothesis Hcoord :
  forall k : Z, (0 <= k < b + 2 - a)%Z -> coord l' k = coord l (a + k).
Hypothesis Hlast : last_coord l' = coord l (b + 1).

Lemma sub_axis_step : coord l' 1 - coord l' 0 == coord l 1 - coord l 0.
Proof.
  rewrite (Hcoord 1), (Hcoord 0) by lia.
  rewrite (uniform_coord l Hun (a + 1)), (uniform_coord l Hun (a + 0)) by lia.
  rewrite Z.add_0_r. rewrite inject_Z_plus. ring.
Qed.

Lemma sub_axis_in (X : Q) : in_axis l' X = true -> in_axis l X = true.
Proof.
  intros H. apply in_axis_iff in H as [H0 H1]. apply in_axis_iff.
  rewrite Hcoord in H0 by lia. rewrite Hlast in H1.
  unfold coord in H0, H1. split.
  - apply Qle_trans with (nth (Z.to_nat (a + 0)) l 0); [|exact H0].
    apply (axis_first_le l Hax). lia.
  - apply Qle_trans with (nth (Z.to_nat (b + 1)) l 0); [exact H1|].
    apply (axis_le_last l Hax). lia.
Qed.

Lemma sub_axis_position (X : Q) :
  grid_position l' X == grid_position l X - inject_Z a.
Proof.
  unfold grid_position at 1. rewrite (Qdiv_eq_r _ _ _ sub_axis_step).
  rewrite Hcoord by lia. rewrite Z.add_0_r.
  apply (offset_position l Hax Hun). lia.
Qed.

Lemma sub_axis_offset (X : Q) (k : Z) :
  (0 <= k < b + 2 - a)%Z ->
  (X - coord l' k) / (coord l' 1 - coord l' 0)
  == grid_position l X - inject_Z (a + k).
Proof.
  intros Hk. rewrite (Qdiv_eq_r _ _ _ sub_axis_step), (Hcoord k Hk).
  apply (offset_position l Hax Hun). lia.
Qed.

(** The cell of a point of the sub-range, seen from the sub-range and
    from the whole axis: the same cell, or, for a point on the last line
    of the sub-range, the cell that ends there and the cell that starts
    there. *)
Lemma sub_axis_cell (X : Q) :
  in_axis l' X = true ->
  let c := cell_index l X in
  let c' := cell_index l' X in
  ((c = a + c')%Z /\
   (X - coord l' c') / (coord l' 1 - coord l' 0)
   == (X - coord l c) / (coord l 1 - coord l 0)) \/
  ((c = a + c' + 1)%Z /\ (c = b + 1)%Z /\ X == coord l (b + 1) /\
   (X - coord l' c') / (coord l' 1 - coord l' 0) == 1 /\
   (X - coord l c) / (coord l 1 - coord l 0) == 0).
Proof.
  intros HX' c c'.
  pose proof (sub_axis_in X HX') as HX.
  apply in_axis_iff in HX' as [L' U']. apply in_axis_iff in HX as [L U].
  pose proof (cell_index_position l Hax X L) as Ec.
  pose proof (cell_index_floor l' Hax' X L') as Ec'.
  fold (grid_position l' X) in Ec'.
  rewrite sub_axis_position, Qfloor_shift, Hlen in Ec'.
  fold c in Ec. fold c' in Ec'.
  set (t := grid_position l X) in *.
  pose proof (Qfloor_le t) as F1. pose proof (Qlt_floor t) as F2.
  assert (Ta : inject_Z a <= t).
  { apply (grid_position_ge l Hax Hun X a); [lia|].
    rewrite Hcoord in L' by lia. now rewrite Z.add_0_r in L'. }
  assert (Tb : t <= inject_Z (b + 1)).
  { apply (grid_position_le l Hax Hun X (b + 1)); [lia|]. now rewrite <- Hlast. }
  assert (Fa : (a <= Qfloor t)%Z).
  { apply Qfloor_resp_le in Ta. now rewrite Qfloor_Z in Ta. }
  assert (Fb : (Qfloor t <= b + 1)%Z).
  { apply Qfloor_resp_le in Tb. now rewrite Qfloor_Z in Tb. }
  assert (Same : (c = a + c')%Z ->
    (X - coord l' c') / (coord l' 1 - coord l' 0)
    == (X - coord l c) / (coord l 1 - coord l 0)).
  { intros E. rewrite sub_axis_offset by lia. rewrite <- E.
    symmetry. apply (offset_position l Hax Hun). lia. }
  destruct (Z.le_gt_cases (Qfloor t) b) as [Hle|Hgt].
  - left. assert (E : (c = a + c')%Z) by lia. split; [exact E | exact (Same E)].
  - assert (Ef : Qfloor t = (b + 1)%Z) by lia.
    assert (Et : t == inject_Z (b + 1)) by (rewrite Ef in F1; lra).
    destruct (Z.eq_dec b (Z.of_nat (length l) - 2)) as [Eb|Nb].
    + left. assert (E : (c = a + c')%Z) by lia. split; [exact E | exact (Same E)].
    + right. assert (E : (c = a + c' + 1)%Z) by lia.
      split; [exact E|]. split; [lia|]. split.
      * apply (grid_position_eq l Hax Hun); [lia | exact Et].
      * split.
        -- rewrite sub_axis_offset by lia. fold t. rewrite Et.
           replace (a + c')%Z with b by lia. rewrite inject_Z_plus. ring.
        -- rewrite (offset_position l Hax Hun) by lia. fold t. rewrite Et.
           replace c with (b + 1)%Z by lia. ring.
Qed.

(** Away from the last line of the sub-range, or when that line is the
    last line of the axis, it is the same cell. *)
Lemma sub_axis_same_cell (X : Q) :
  in_axis l' X = true ->
  X < last_coord l' \/ b = (Z.of_nat (length l) - 2)%Z ->
  (cell_index l X = a + cell_index l' X)%Z.
Proof.
  intros HX' Hin.
  destruct (sub_axis_cell X HX') as [[E _]|(E & Eb & EX & _)]; [exact E|].
  pose proof (sub_axis_in X HX') as HX.
  apply in_axis_iff in HX' as [L' U']. apply in_axis_iff in HX as [L U].
  pose proof (cell_index_bounds l Hax X L) as Bc.
  pose proof (cell_index_bounds l' Hax' X L') as Bc'.
  rewrite Hlen in Bc'.
  destruct Hin as [Hlt|Hb].
  - rewrite Hlast in Hlt. lra.
  - lia.
Qed.

End SubAxis.

(** ** The interpolant across neighbouring cells *)

Lemma cell_value_same (S : Z -> Z -> item) (i j : Z) (ax ay ax' ay' : Q) :
  ax' == ax -> ay' == ay ->
  same_item (cell_value S i j ax' ay') (cell_value S i j ax ay).
Proof.
  intros Hx Hy. unfold cell_value. cbv zeta.
  destruct (S i j), (S i (j + 1)%Z), (S (i + 1)%Z j), (S (i + 1)%Z (j + 1)%Z);
    cbn; try exact I.
  rewrite Hx, Hy. reflexivity.
Qed.

(** The bilinear interpolant is continuous across cells: a point on the
    line between two cells gets the same value from both. *)
Lemma cell_value_shift (S : Z -> Z -> item) (I J i j : Z) (ax ay ax' ay' v w : Q) :
  (i = I /\ ay' == ay) \/ (i = (I + 1)%Z /\ ay' == 1 /\ ay == 0) ->
  (j = J /\ ax' == ax) \/ (j = (J + 1)%Z /\ ax' == 1 /\ ax == 0) ->
  cell_value S I J ax' ay' = Val v -> cell_value S i j ax ay = Val w -> v == w.
Proof.
  unfold cell_value. cbv zeta.
  intros [[-> Hy]|(-> & Hy1 & Hy0)] [[-> Hx]|(-> & Hx1 & Hx0)];
    repeat match goal with
    | |- context [S ?a ?b] => destruct (S a b)
    end; cbn; try discriminate;
    intros [= <-] [= <-];
    rewrite ?Hx, ?Hy, ?Hx1, ?Hy1, ?Hx0, ?Hy0; ring.
Qed.

Section SubGridValues.

Variable g : GridData.
Hypothesis Hwf : well_formed g = true.
Variables imin imax jmin jmax : Z.
Hypothesis Hi : (0 <= imin <= imax)%Z.
Hypothesis Hi' : (imax <= Z.of_nat (length (gd_y g)) - 2)%Z.
Hypothesis Hj : (0 <= jmin <= jmax)%Z.
Hypothesis Hj' : (jmax <= Z.of_nat (length (gd_x g)) - 2)%Z.

Let s := subset_grid g imin imax jmin jmax.

Lemma sub_corner_samples (a b : Z) :
  (0 <= a <= imax - imin)%Z -> (0 <= b <= jmax - jmin)%Z ->
  sample (gd_data s) a b = sample (gd_data g) (imin + a) (jmin + b) /\
  sample (gd_data s) a (b + 1) = sample (gd_data g) (imin + a) (jmin + b + 1) /\
  sample (gd_data s) (a + 1) b = sample (gd_data g) (imin + a + 1) (jmin + b) /\
  sample (gd_data s) (a + 1) (b + 1) = sample (gd_data g) (imin + a + 1) (jmin + b + 1).
Proof.
  intros Ha Hb. unfold s.
  rewrite !(sub_sample g Hwf imin imax jmin jmax) by lia.
  rewrite !Z.add_assoc. repeat split; reflexivity.
Qed.

Lemma sub_cell_value (a b : Z) (ax ay : Q) :
  (0 <= a <= imax - imin)%Z -> (0 <= b <= jmax - jmin)%Z ->
  cell_value (sample (gd_data s)) a b ax ay
  = cell_value (sample (gd_data g)) (imin + a) (jmin + b) ax ay.
Proof.
  intros Ha Hb. unfold cell_value. cbv zeta.
  destruct (sub_corner_samples a b Ha Hb) as (-> & -> & -> & ->). reflexivity.
Qed.

Lemma sub_cell_missing (a b : Z) :
  (0 <= a <= imax - imin)%Z -> (0 <= b <= jmax - jmin)%Z ->
  cell_missing (gd_data s) a b = cell_missing (gd_data g) (imin + a) (jmin + b).
Proof.
  intros Ha Hb. unfold cell_missing, corners. cbn [existsb fst snd].
  destruct (sub_corner_samples a b Ha Hb) as (-> & -> & -> & ->). reflexivity.
Qed.

End SubGridValues.

(** ** Sub-region extraction against the parent grid *)

Lemma last_line_index (l : list Q) (b : Z) :
  axis_ok l = true ->
  (0 <= b <= Z.of_nat (length l) - 2)%Z ->
  coord l (b + 1) == last_coord l -> b = (Z.of_nat (length l) - 2)%Z.
Proof.
  intros Hax Hb E.
  destruct (Z.eq_dec b (Z.of_nat (length l) - 2)) as [|N]; [assumption|].
  exfalso. unfold coord, last_coord in E.
  pose proof (increasingb_nth l (Z.to_nat (b + 1)) (length l - 1)
                (axis_increasing l Hax)) as H.
  assert (Hlt : nth (Z.to_nat (b + 1)) l 0 < nth (length l - 1) l 0)
    by (apply H; lia).
  lra.
Qed.

Section SubsetAgainstParent.

Variable g : GridData.
Hypothesis Hwf : well_formed g = true.
Hypothesis Hun : uniform_grid g = true.
Variables imin imax jmin jmax : Z.
Hypothesis Hi : (0 <= imin <= imax)%Z.
Hypothesis Hi' : (imax <= Z.of_nat (length (gd_y g)) - 2)%Z.
Hypothesis Hj : (0 <= jmin <= jmax)%Z.
Hypothesis Hj' : (jmax <= Z.of_nat (length (gd_x g)) - 2)%Z.

Let s := subset_grid g imin imax jmin jmax.

Variable P : Q * Q.
Hypothesis HP : in_domain s P = true.

Let Hs : well_formed s = true := sub_well_formed g Hwf imin imax jmin jmax Hi Hi' Hj Hj'.

Lemma sub_point_cells :
  let i' := cell_index (gd_y s) (snd P) in
  let j' := cell_index (gd_x s) (fst P) in
  (0 <= i' <= imax - imin)%Z /\ (0 <= j' <= jmax - jmin)%Z.
Proof.
  destruct (wf_cell_bounds s Hs P HP) as [Bi Bj].
  unfold cell_of in Bi, Bj. cbn [fst snd] in Bi, Bj.
  unfold s in Bi, Bj.
  rewrite (sub_length_y g imin imax jmin jmax Hi Hi') in Bi.
  rewrite (sub_length_x g imin imax jmin jmax Hj Hj') in Bj.
  cbv zeta. fold s in Bi, Bj. lia.
Qed.

Lemma sub_point_x :
  let c := cell_index (gd_x g) (fst P) in
  let c' := cell_index (gd_x s) (fst P) in
  in_axis (gd_x g) (fst P) = true /\
  (((c = jmin + c')%Z /\
    (fst P - coord (gd_x s) c') / (coord (gd_x s) 1 - coord (gd_x s) 0)
    == (fst P - coord (gd_x g) c) / (coord (gd_x g) 1 - coord (gd_x g) 0)) \/
   ((c = jmin + c' + 1)%Z /\
    (fst P - coord (gd_x s) c') / (coord (gd_x s) 1 - coord (gd_x s) 0) == 1 /\
    (fst P - coord (gd_x g) c) / (coord (gd_x g) 1 - coord (gd_x g) 0) == 0)) /\
  (fst P < last_coord (gd_x s) \/ last_coord (gd_x s) == last_coord (gd_x g) ->
   (c = jmin + c')%Z).
Proof.
  destruct (wf_parts g Hwf) as (Hx & Hy & _).
  destruct (uniform_grid_parts g Hun) as [Ux Uy].
  apply in_domain_parts in HP as [HX _].
  pose proof (sub_length_x g imin imax jmin jmax Hj Hj') as Hlen.
  pose proof (sub_coord_x g imin imax jmin jmax Hj Hj') as Hcoord.
  pose proof (sub_last_x g imin imax jmin jmax Hj Hj') as Hlast.
  fold s in Hlen, Hcoord, Hlast.
  pose proof (wf_x s Hs) as Hax'.
  assert (Hin : in_axis (gd_x g) (fst P) = true)
    by (apply (sub_axis_in (gd_x g) (gd_x s) jmin jmax); assumption).
  assert (Hcell := sub_axis_cell (gd_x g) (gd_x s) jmin jmax).
  assert (Hsame := sub_axis_same_cell (gd_x g) (gd_x s) jmin jmax).
  cbv zeta in Hcell. cbv zeta. split; [exact Hin|split].
  - destruct (Hcell Hx Ux Hax' Hj Hj' Hlen Hcoord Hlast (fst P) HX)
      as [[E O]|(E & _ & _ & O1 & O0)]; [left | right]; auto.
  - intros [Hlt|Heq];
      apply (Hsame Hx Ux Hax' Hj Hj' Hlen Hcoord Hlast (fst P) HX);
      [now left | right].
    rewrite Hlast in Heq. apply last_line_index; [assumption | lia | assumption].
Qed.

Lemma sub_point_y :
  let c := cell_index (gd_y g) (snd P) in
  let c' := cell_index (gd_y s) (snd P) in
  in_axis (gd_y g) (snd P) = true /\
  (((c = imin + c')%Z /\
    (snd P - coord (gd_y s) c') / (coord (gd_y s) 1 - coord (gd_y s) 0)
    == (snd P - coord (gd_y g) c) / (coord (gd_y g) 1 - coord (gd_y g) 0)) \/
   ((c = imin + c' + 1)%Z /\
    (snd P - coord (gd_y s) c') / (coord (gd_y s) 1 - coord (gd_y s) 0) == 1 /\
    (snd P - coord (gd_y g) c) / (coord (gd_y g) 1 - coord (gd_y g) 0) == 0)) /\
  (snd P < last_coord (gd_y s) \/ last_coord (gd_y s) == last_coord (gd_y g) ->
   (c = imin + c')%Z).
Proof.
  destruct (wf_parts g Hwf) as (Hx & Hy & _).
  destruct (uniform_grid_parts g Hun) as [Ux Uy].
  apply in_domain_parts in HP as [_ HY].
  pose proof (sub_length_y g imin imax jmin jmax Hi Hi') as Hlen.
  pose proof (sub_coord_y g imin imax jmin jmax Hi Hi') as Hcoord.
  pose proof (sub_last_y g imin imax jmin jmax Hi Hi') as Hlast.
  fold s in Hlen, Hcoord, Hlast.
  pose proof (wf_y s Hs) as Hax'.
  assert (Hin : in_axis (gd_y g) (snd P) = true)
    by (apply (sub_axis_in (gd_y g) (gd_y s) imin imax); assumption).
  assert (Hcell := sub_axis_cell (gd_y g) (gd_y s) imin imax).
  assert (Hsame := sub_axis_same_cell (gd_y g) (gd_y s) imin imax).
  cbv zeta in Hcell. cbv zeta. split; [exact Hin|split].
  - destruct (Hcell Hy Uy Hax' Hi Hi' Hlen Hcoord Hlast (snd P) HY)
      as [[E O]|(E & _ & _ & O1 & O0)]; [left | right]; auto.
  - intros [Hlt|Heq];
      apply (Hsame Hy Uy Hax' Hi Hi' Hlen Hcoord Hlast (snd P) HY);
      [now left | right].
    rewrite Hlast in Heq. apply last_line_index; [assumption | lia | assumption].
Qed.

Lemma sub_point_in_parent : in_domain g P = true.
Proof.
  apply in_domain_parts. split; [apply sub_point_x | apply sub_point_y].
Qed.

(** [evaluate] on the sub-grid, in terms of the samples of the parent. *)
Lemma sub_evaluate :
  let i' := cell_index (gd_y s) (snd P) in
  let j' := cell_index (gd_x s) (fst P) in
  evaluate s P =
    if cell_missing (gd_data g) (imin + i') (jmin + j') then Err InsufficientData
    else Ok (cell_value (sample (gd_data g)) (imin + i') (jmin + j')
               ((fst P - coord (gd_x s) j') / (coord (gd_x s) 1 - coord (gd_x s) 0))
               ((snd P - coord (gd_y s) i') / (coord (gd_y s) 1 - coord (gd_y s) 0))).
Proof.
  cbv zeta. destruct sub_point_cells as [Bi Bj]. cbv zeta in Bi, Bj.
  rewrite (wf_evaluate s Hs P HP). unfold cell_of, interpolant. cbn [fst snd].
  unfold s at 1 4.
  rewrite (sub_cell_missing g Hwf imin imax jmin jmax Hi Hi' Hj Hj') by assumption.
  rewrite (sub_cell_value g Hwf imin imax jmin jmax Hi Hi' Hj Hj') by assumption.
  reflexivity.
Qed.

Lemma sub_evaluate_values (v w : Q) :
  evaluate s P = Ok (Val v) -> evaluate g P = Ok (Val w) -> v == w.
Proof.
  rewrite sub_evaluate. cbv zeta.
  rewrite (wf_evaluate g Hwf P sub_point_in_parent).
  unfold cell_of, interpolant. cbn [fst snd].
  destruct (cell_missing _ _ _); [discriminate|].
  destruct (cell_missing _ _ _); [discriminate|].
  intros [= Hv] [= Hw].
  destruct sub_point_x as (_ & Cx & _). destruct sub_point_y as (_ & Cy & _).
  cbv zeta in Cx, Cy.
  eapply cell_value_shift; [| | exact Hv | exact Hw].
  - destruct Cy as [[E O]|(E & O1 & O0)]; [left | right]; auto.
  - destruct Cx as [[E O]|(E & O1 & O0)]; [left | right]; auto.
Qed.

Lemma sub_evaluate_same :
  fst P < last_coord (gd_x s) \/ last_coord (gd_x s) == last_coord (gd_x g) ->
  snd P < last_coord (gd_y s) \/ last_coord (gd_y s) == last_coord (gd_y g) ->
  same_result (evaluate s P) (evaluate g P).
Proof.
  intros HX HY.
  rewrite sub_evaluate. cbv zeta.
  rewrite (wf_evaluate g Hwf P sub_point_in_parent).
  unfold cell_of, interpolant. cbn [fst snd].
  destruct sub_point_x as (_ & Cx & Sx). destruct sub_point_y as (_ & Cy & Sy).
  cbv zeta in Cx, Cy, Sx, Sy. specialize (Sx HX). specialize (Sy HY).
  assert (Ox : (fst P - coord (gd_x s) (cell_index (gd_x s) (fst P)))
               / (coord (gd_x s) 1 - coord (gd_x s) 0)
               == (fst P - coord (gd_x g) (cell_index (gd_x g) (fst P)))
                  / (coord (gd_x g) 1 - coord (gd_x g) 0))
    by (destruct Cx as [[_ O]|(E & _)]; [exact O | lia]).
  assert (Oy : (snd P - coord (gd_y s) (cell_index (gd_y s) (snd P)))
               / (coord (gd_y s) 1 - coord (gd_y s) 0)
               == (snd P - coord (gd_y g) (cell_index (gd_y g) (snd P)))
                  / (coord (gd_y g) 1 - coord (gd_y g) 0))
    by (destruct Cy as [[_ O]|(E & _)]; [exact O | lia]).
  rewrite <- Sx, <- Sy.
  destruct (cell_missing _ _ _); [reflexivity|].
  cbn [same_result]. now apply cell_value_same.
Qed.

End SubsetAgainstParent.

(** The sub-grid of the first cell of the grid with a gap, and the point
    (1, 0) on both grids. *)
Example subset_first_cell :
  subset grid_gap 0 0 (1 # 2) (1 # 2)
  = Ok (mk_GridData [0; 1] [0; 1]
          (mk_ndarray 2 [[(0, false); (1, false)]; [(3, false); (4, false)]])).
Proof. reflexivity. Qed.

Example last_column_of_sub_grid :
  _index_of_point [0; 1] [0; 1] 1 0 = Ok (0, 0)%Z /\
  _index_of_point [0; 1; 2] [0; 1] 1 0 = Ok (0, 1)%Z /\
  evaluate (subset_grid grid_gap 0 0 0 0) (1, 0) = Ok (Val 1) /\
  evaluate grid_gap (1, 0) = Err InsufficientData.
Proof. repeat split; reflexivity. Qed.




(** * Further properties of [grid_data.py] *)

(** ** What the constructor establishes *)

Lemma length_concat_rect {A : Type} (rs : list (list A)) (nc : nat) :
  forallb (fun r => Nat.eqb (length r) nc) rs = true ->
  length (concat rs) = (length rs * nc)%nat.
Proof.
  induction rs as [|r rs IH]; [reflexivity|].
  cbn [forallb concat length]. intros H. apply andb_prop in H as [Hr Hrs].
  apply Nat.eqb_eq in Hr. rewrite length_app, (IH Hrs), Hr. lia.
Qed.

Lemma length_chunks {A : Type} (nr nc : nat) (l : list A) :
  length (chunks nr nc l) = nr.
Proof.
  revert l. induction nr as [|nr IH]; intros l; [reflexivity|].
  cbn [chunks length]. now rewrite IH.
Qed.

Lemma chunks_rect {A : Type} (nr nc : nat) (l : list A) :
  length l = (nr * nc)%nat ->
  forallb (fun r => Nat.eqb (length r) nc) (chunks nr nc l) = true.
Proof.
  revert l. induction nr as [|nr IH]; intros l H; [reflexivity|].
  cbn [chunks forallb]. apply andb_true_intro. split.
  - apply Nat.eqb_eq. rewrite length_firstn. lia.
  - apply IH. rewrite length_skipn. lia.
Qed.

Lemma zip_rows_rect (nc : nat) (ds : list (list Q)) (ms : list (list bool)) :
  forallb (fun r => Nat.eqb (length r) nc) ds = true ->
  forallb (fun r => Nat.eqb (length r) nc) ms = true ->
  forallb (fun r => Nat.eqb (length r) nc)
          (map (fun dm => zip_rows (fst dm) (snd dm)) (combine ds ms)) = true.
Proof.
  revert ms. induction ds as [|d ds IH]; intros ms Hd Hm; [reflexivity|].
  destruct ms as [|m ms]; [reflexivity|].
  cbn [forallb] in Hd, Hm. apply andb_prop in Hd as [Hd Hds].
  apply andb_prop in Hm as [Hm Hms].
  cbn [combine map forallb fst snd]. apply andb_true_intro. split.
  - apply Nat.eqb_eq in Hd, Hm. apply Nat.eqb_eq.
    unfold zip_rows. rewrite length_combine. lia.
  - now apply IH.
Qed.

Lemma nd_map_rect {A B : Type} (f : A -> B) (a : ndarray A) :
  rectangularb a = true -> rectangularb (nd_map f a) = true.
Proof.
  unfold rectangularb, nd_map. cbn [rows ncols]. rewrite !forallb_forall.
  intros H r Hr. apply in_map_iff in Hr as (r0 & <- & Hr0).
  rewrite length_map. now apply H.
Qed.

Lemma MaskedArray_shape (a : ndarray Q) (mk : ndarray bool) (m : masked_array) :
  MaskedArray a mk = Ok m -> nrows m = nrows a /\ ncols m = ncols a.
Proof.
  unfold MaskedArray.
  destruct (Nat.eqb (nrows mk) (nrows a) && Nat.eqb (ncols mk) (ncols a))%bool eqn:E.
  - apply andb_prop in E as [Er _]. apply Nat.eqb_eq in Er.
    intros [= <-]. unfold nrows in *. cbn [rows ncols].
    rewrite length_map, length_combine. split; [lia | reflexivity].
  - destruct (Nat.eqb (length (flatten mk)) 1).
    + intros [= <-]. unfold nd_map, nrows. cbn [rows ncols].
      now rewrite length_map.
    + destruct (Nat.eqb (length (flatten mk)) (length (flatten a))); [|discriminate].
      intros [= <-]. unfold nrows. cbn [rows ncols].
      rewrite length_map, length_combine, length_chunks. split; [|reflexivity].
      unfold nrows. lia.
Qed.

Lemma MaskedArray_rect (a : ndarray Q) (mk : ndarray bool) (m : masked_array) :
  rectangularb a = true -> rectangularb mk = true ->
  MaskedArray a mk = Ok m -> rectangularb m = true.
Proof.
  intros Ha Hmk. unfold MaskedArray.
  destruct (Nat.eqb (nrows mk) (nrows a) && Nat.eqb (ncols mk) (ncols a))%bool eqn:E.
  - apply andb_prop in E as [_ Ec]. apply Nat.eqb_eq in Ec.
    intros [= <-]. unfold rectangularb in *. cbn [rows ncols].
    rewrite Ec in Hmk. now apply zip_rows_rect.
  - destruct (Nat.eqb (length (flatten mk)) 1) eqn:E1.
    + intros [= <-]. now apply nd_map_rect.
    + destruct (Nat.eqb (length (flatten mk)) (length (flatten a))) eqn:E2; [|discriminate].
      apply Nat.eqb_eq in E2.
      intros [= <-]. unfold rectangularb in *. cbn [rows ncols].
      apply zip_rows_rect; [exact Ha|].
      apply chunks_rect. rewrite E2. unfold flatten.
      now apply length_concat_rect.
Qed.

Lemma init_ok_shape (x y : list Q) (data : data_arg) (mask : option (ndarray bool))
    (missing_data_value : option Q) (g : GridData) :
  GridData_init x y data mask missing_data_value = Ok g ->
  gd_x g = x /\ gd_y g = y /\
  nrows (gd_data g) = length y /\ ncols (gd_data g) = length x.
Proof.
  unfold GridData_init.
  destruct (data_shape data) as [ny nx] eqn:Es.
  destruct (Nat.eqb (length x) nx) eqn:Ex; [|discriminate].
  destruct (Nat.eqb (length y) ny) eqn:Ey; [|discriminate].
  apply Nat.eqb_eq in Ex, Ey. cbn [negb orb].
  destruct data as [a|m]; cbn [data_shape] in Es; unfold shape in Es;
    injection Es as Hr Hc.
  - destruct missing_data_value as [v|].
    + intros [= <-]. cbn [gd_x gd_y gd_data].
      unfold masked_equal, nd_map, nrows in *. cbn [rows ncols].
      rewrite length_map. repeat split; congruence.
    + destruct mask as [mk|]; [|discriminate].
      destruct (MaskedArray a mk) as [m|e] eqn:Em; [|discriminate].
      cbn [bind]. intros [= <-]. cbn [gd_x gd_y gd_data].
      destruct (MaskedArray_shape a mk m Em) as [Hmr Hmc].
      repeat split; congruence.
  - intros [= <-]. cbn [gd_x gd_y gd_data]. repeat split; congruence.
Qed.

Lemma init_ok_rect (x y : list Q) (data : data_arg) (mask : option (ndarray bool))
    (missing_data_value : option Q) (g : GridData) :
  data_rectangular data = true -> mask_rectangular mask = true ->
  GridData_init x y data mask missing_data_value = Ok g ->
  rectangularb (gd_data g) = true.
Proof.
  intros Hd Hm. unfold GridData_init.
  destruct (data_shape data) as [ny nx].
  destruct (negb (Nat.eqb (length x) nx) || negb (Nat.eqb (length y) ny))%bool;
    [discriminate|].
  destruct data as [a|m]; cbn [data_rectangular] in Hd.
  - destruct missing_data_value as [v|].
    + intros [= <-]. cbn [gd_data]. now apply nd_map_rect.
    + destruct mask as [mk|]; [|discriminate].
      destruct (MaskedArray a mk) as [m|e] eqn:Em; [|discriminate].
      cbn [bind]. intros [= <-]. cbn [gd_data].
      exact (MaskedArray_rect a mk m Hd Hm Em).
  - intros [= <-]. exact Hd.
Qed.

(** X1. A grid returned by the constructor stores the two axes as given,
    and its samples have the shape [(len(y), len(x))], whichever of the
    three mask specifications was used; when the arrays given are
    rectangular, so are the stored samples. *)
Theorem X1_constructor_invariant (x y : list Q) (data : data_arg)
    (mask : option (ndarray bool)) (missing_data_value : option Q) (g : GridData) :
  GridData_init x y data mask missing_data_value = Ok g ->
  gd_x g = x /\ gd_y g = y /\
  shape (gd_data g) = (length (gd_y g), length (gd_x g)) /\
  (data_rectangular data = true -> mask_rectangular mask = true ->
   rectangularb (gd_data g) = true).
Proof.
  intros H. destruct (init_ok_shape _ _ _ _ _ _ H) as (Hx & Hy & Hr & Hc).
  split; [exact Hx|]. split; [exact Hy|]. split.
  - unfold shape. now rewrite Hr, Hc, Hx, Hy.
  - intros Hd Hm. exact (init_ok_rect _ _ _ _ _ _ Hd Hm H).
Qed.

(** A plain 2 x 3 array with an explicit mask of six entries in one row,
    which numpy reshapes. *)
Lemma X1_constructor_invariant_witness :
  exists g : GridData,
    GridData_init [0; 1; 2] [0; 1] (PlainArray (mk_ndarray 3 [[0; 1; 2]; [3; 4; 5]]))
      (Some (mk_ndarray 6 [[false; false; true; false; false; false]])) None = Ok g /\
    gd_x g = [0; 1; 2] /\ gd_y g = [0; 1] /\
    shape (gd_data g) = (length (gd_y g), length (gd_x g)) /\
    rectangularb (gd_data g) = true /\
    g = grid_gap.
Proof.
  eexists. split; [reflexivity|].
  destruct (X1_constructor_invariant [0; 1; 2] [0; 1]
              (PlainArray (mk_ndarray 3 [[0; 1; 2]; [3; 4; 5]]))
              (Some (mk_ndarray 6 [[false; false; true; false; false; false]])) None
              _ eq_refl) as (Hx & Hy & Hs & Hr).
  split; [exact Hx|]. split; [exact Hy|]. split; [exact Hs|].
  split; [apply Hr; reflexivity | reflexivity].
Defined.

(** ** [is_masked] decides what [evaluate] does *)

Lemma nd_get_ok_inv {A : Type} (a : ndarray A) (i j : Z) (v : A) :
  nd_get a i j = Ok v ->
  exists r c, norm_index (nrows a) i = Some r /\ norm_index (ncols a) j = Some c.
Proof.
  unfold nd_get.
  destruct (norm_index (nrows a) i) as [r|]; [|discriminate].
  destruct (norm_index (ncols a) j) as [c|]; [|discriminate].
  intros _. now exists r, c.
Qed.

Lemma py_get_of_norm {A : Type} (l : list A) (k : Z) (c : nat) :
  norm_index (length l) k = Some c -> exists v, py_get l k = Ok v.
Proof.
  intros H. unfold py_get. rewrite H.
  apply norm_index_bound in H.
  destruct (nth_error l c) as [v|] eqn:E; [now exists v|].
  apply nth_error_None in E. lia.
Qed.

Lemma ma_get_ok_axes (g : GridData) (i j : Z) (c : item) :
  nrows (gd_data g) = length (gd_y g) ->
  ncols (gd_data g) = length (gd_x g) ->
  ma_get (gd_data g) i j = Ok c ->
  (exists yi, py_get (gd_y g) i = Ok yi) /\ (exists xj, py_get (gd_x g) j = Ok xj).
Proof.
  intros Hr Hc H. unfold ma_get in H.
  destruct (nd_get (gd_data g) i j) as [v|] eqn:E; [|discriminate].
  destruct (nd_get_ok_inv _ _ _ _ E) as (r & c0 & Hi & Hj).
  rewrite Hr in Hi. rewrite Hc in Hj.
  split; eapply py_get_of_norm; eassumption.
Qed.

Lemma is_missing_false_inv (q : masked_array) (i j : Z) :
  _is_missing q i j = Ok false ->
  exists q00 q01 q10 q11 : Q,
    ma_get q i j = Ok (Val q00) /\ ma_get q i (j + 1) = Ok (Val q01) /\
    ma_get q (i + 1) j = Ok (Val q10) /\ ma_get q (i + 1) (j + 1) = Ok (Val q11).
Proof.
  unfold _is_missing, corners. cbn [collect fst snd].
  destruct (ma_get q i j) as [[|q00]|]; cbn [bind is_ma_masked]; try discriminate;
    destruct (ma_get q i (j + 1)) as [[|q01]|]; cbn [bind is_ma_masked]; try discriminate;
    destruct (ma_get q (i + 1) j) as [[|q10]|]; cbn [bind is_ma_masked]; try discriminate;
    destruct (ma_get q (i + 1) (j + 1)) as [[|q11]|]; cbn [bind is_ma_masked existsb];
    try discriminate.
  intros _. now exists q00, q01, q10, q11.
Qed.

Lemma index_of_point_ok_inv (x y : list Q) (X Y : Q) (i j : Z) :
  _index_of_point x y X Y = Ok (i, j) ->
  exists x0 x1 y0 y1 : Q,
    py_get x 0 = Ok x0 /\ py_get x 1 = Ok x1 /\
    py_get y 0 = Ok y0 /\ py_get y 1 = Ok y1.
Proof.
  unfold _index_of_point.
  destruct (between x X) as [inx|]; cbn [bind]; [|discriminate].
  destruct (if inx then between y Y else Ok false) as [inside|]; cbn [bind]; [|discriminate].
  destruct (negb inside); [discriminate|].
  destruct (py_get y 0) as [y0|]; cbn [bind]; [|discriminate].
  destruct (py_get y 1) as [y1|]; cbn [bind]; [|discriminate].
  destruct (int_div _ _); cbn [bind]; [|discriminate].
  destruct (py_get x 0) as [x0|]; cbn [bind]; [|discriminate].
  destruct (py_get x 1) as [x1|]; cbn [bind]; [|discriminate].
  intros _. now exists x0, x1, y0, y1.
Qed.

Lemma evaluate_follows_is_masked (g : GridData) (p : Q * Q) :
  nrows (gd_data g) = length (gd_y g) ->
  ncols (gd_data g) = length (gd_x g) ->
  match is_masked g p with
  | Ok false => exists v : Q, evaluate g p = Ok (Val v)
  | Ok true => evaluate g p = Err InsufficientData
  | Err e => evaluate g p = Err e
  end.
Proof.
  intros Hr Hc. unfold is_masked, evaluate, _bilinear_interp.
  destruct (_index_of_point (gd_x g) (gd_y g) (fst p) (snd p)) as [[i j]|e] eqn:Ei;
    cbn [bind]; [|reflexivity].
  destruct (_is_missing (gd_data g) i j) as [[|]|e] eqn:Em; cbn [bind];
    [reflexivity | | reflexivity].
  destruct (is_missing_false_inv _ _ _ Em) as (q00 & q01 & q10 & q11 & H00 & H01 & H10 & H11).
  destruct (index_of_point_ok_inv _ _ _ _ _ _ Ei) as (x0 & x1 & y0 & y1 & Gx0 & Gx1 & Gy0 & Gy1).
  destruct (ma_get_ok_axes g i j _ Hr Hc H00) as [[yi Gyi] [xj Gxj]].
  rewrite Gxj, Gx1, Gx0, Gyi, Gy1, Gy0. cbn [bind].
  unfold getitem. rewrite H01, H00, H10, H11. cbn [bind].
  eexists. reflexivity.
Qed.

(** X2. On every grid the constructor returns, whatever the axes are,
    [is_masked] decides what [evaluate] does at the same point: when
    [is_masked] raises, [evaluate] raises the same error; when it returns
    true, [evaluate] raises the insufficient-data error; when it returns
    false, [evaluate] returns a number, never [ma.masked] and never an
    error. *)
Theorem X2_evaluate_follows_is_masked (x y : list Q) (data : data_arg)
    (mask : option (ndarray bool)) (missing_data_value : option Q)
    (g : GridData) (p : Q * Q) :
  GridData_init x y data mask missing_data_value = Ok g ->
  match is_masked g p with
  | Ok false => exists v : Q, evaluate g p = Ok (Val v)
  | Ok true => evaluate g p = Err InsufficientData
  | Err e => evaluate g p = Err e
  end.
Proof.
  intros H. destruct (init_ok_shape _ _ _ _ _ _ H) as (Hx & Hy & Hr & Hc).
  apply evaluate_follows_is_masked; congruence.
Qed.

(** A grid with a sentinel whose y axis has a single coordinate: every
    query in range fails in [is_masked] and in [evaluate] alike. *)
Lemma X2_evaluate_follows_is_masked_witness :
  is_masked (mk_GridData [0; 1] [0] (masked_equal (mk_ndarray 2 [[5; 7]]) 7)) (1 # 2, 0)
    = Err IndexError /\
  evaluate (mk_GridData [0; 1] [0] (masked_equal (mk_ndarray 2 [[5; 7]]) 7)) (1 # 2, 0)
    = Err IndexError.
Proof.
  split; [reflexivity|].
  exact (X2_evaluate_follows_is_masked [0; 1] [0] (PlainArray (mk_ndarray 2 [[5; 7]]))
           None (Some 7) _ (1 # 2, 0) eq_refl).
Defined.

(** ** The resolved cell on uniform axes *)

Lemma uniform_next_coord (l : list Q) (k : Z) :
  axis_ok l = true -> uniformb l = true ->
  (0 <= k <= Z.of_nat (length l) - 2)%Z ->
  coord l (k + 1) - coord l k == coord l 1 - coord l 0.
Proof.
  intros Hax Hun Hk.
  rewrite (uniform_coord l Hun (k + 1)), (uniform_coord l Hun k) by lia.
  rewrite inject_Z_plus. ring.
Qed.

(** In its cell a point has offsets between 0 and 1. *)
Lemma offset_in_unit (l : list Q) (X : Q) :
  axis_ok l = true -> uniformb l = true -> in_axis l X = true ->
  0 <= (X - coord l (cell_index l X)) / (coord l 1 - coord l 0) <= 1.
Proof.
  intros Hax Hun HX.
  destruct (cell_contains l Hax Hun X HX) as [Hlo Hhi].
  apply in_axis_iff in HX as [H0 _].
  pose proof (cell_index_bounds l Hax X H0) as Hb.
  pose proof (uniform_next_coord l (cell_index l X) Hax Hun Hb) as Hstep.
  pose proof (axis_step_pos l Hax) as Hpos.
  split.
  - apply Qdiv_nonneg; lra.
  - apply Qle_shift_div_r; lra.
Qed.



(** ** The interpolated value *)

Lemma bilinear_convex (q00 q01 q10 q11 ax ay : Q) :
  bilinear q00 q01 q10 q11 ax ay
  == (1 - ax) * (1 - ay) * q00 + ax * (1 - ay) * q01
     + (1 - ax) * ay * q10 + ax * ay * q11.
Proof. unfold bilinear. ring. Qed.

Lemma weighted_lower (w q m : Q) : 0 <= w -> m <= q -> w * m <= w * q.
Proof.
  intros Hw Hq. rewrite !(Qmult_comm w). apply Qmult_le_compat_r; assumption.
Qed.

Lemma bilinear_between (q00 q01 q10 q11 ax ay m M : Q) :
  0 <= ax <= 1 -> 0 <= ay <= 1 ->
  m <= q00 <= M -> m <= q01 <= M -> m <= q10 <= M -> m <= q11 <= M ->
  m <= bilinear q00 q01 q10 q11 ax ay <= M.
Proof.
  intros [Ax0 Ax1] [Ay0 Ay1] [L00 U00] [L01 U01] [L10 U10] [L11 U11].
  rewrite bilinear_convex.
  assert (W00 : 0 <= (1 - ax) * (1 - ay)) by (apply Qmult_le_0_compat; lra).
  assert (W01 : 0 <= ax * (1 - ay)) by (apply Qmult_le_0_compat; lra).
  assert (W10 : 0 <= (1 - ax) * ay) by (apply Qmult_le_0_compat; lra).
  assert (W11 : 0 <= ax * ay) by (apply Qmult_le_0_compat; lra).
  pose proof (weighted_lower _ _ _ W00 L00). pose proof (weighted_lower _ _ _ W00 U00).
  pose proof (weighted_lower _ _ _ W01 L01). pose proof (weighted_lower _ _ _ W01 U01).
  pose proof (weighted_lower _ _ _ W10 L10). pose proof (weighted_lower _ _ _ W10 U10).
  pose proof (weighted_lower _ _ _ W11 L11). pose proof (weighted_lower _ _ _ W11 U11).
  assert (Em : (1 - ax) * (1 - ay) * m + ax * (1 - ay) * m + (1 - ax) * ay * m + ax * ay * m == m)
    by ring.
  assert (EM : (1 - ax) * (1 - ay) * M + ax * (1 - ay) * M + (1 - ax) * ay * M + ax * ay * M == M)
    by ring.
  split; lra.
Qed.



Lemma evaluate_value_inv (g : GridData) (p : Q * Q) (v : Q) :
  well_formed g = true -> evaluate g p = Ok (Val v) ->
  in_domain g p = true /\
  exists q00 q01 q10 q11 : Q,
    sample (gd_data g) (fst (cell_of g p)) (snd (cell_of g p)) = Val q00 /\
    sample (gd_data g) (fst (cell_of g p)) (snd (cell_of g p) + 1) = Val q01 /\
    sample (gd_data g) (fst (cell_of g p) + 1) (snd (cell_of g p)) = Val q10 /\
    sample (gd_data g) (fst (cell_of g p) + 1) (snd (cell_of g p) + 1) = Val q11 /\
    v = bilinear q00 q01 q10 q11
          ((fst p - coord (gd_x g) (snd (cell_of g p)))
           / (coord (gd_x g) 1 - coord (gd_x g) 0))
          ((snd p - coord (gd_y g) (fst (cell_of g p)))
           / (coord (gd_y g) 1 - coord (gd_y g) 0)).
Proof.
  intros Hwf Hv.
  destruct (in_domain g p) eqn:Hdom;
    [|rewrite (wf_evaluate_out g Hwf p Hdom) in Hv; discriminate].
  split; [reflexivity|].
  rewrite (wf_evaluate g Hwf p Hdom) in Hv.
  destruct (cell_missing _ _ _) eqn:Hm; [discriminate|].
  apply cell_missing_false in Hm as (q00 & q01 & q10 & q11 & H00 & H01 & H10 & H11).
  rewrite (interpolant_values g _ _ _ _ q00 q01 q10 q11 H00 H01 H10 H11) in Hv.
  injection Hv as <-.
  exists q00, q01, q10, q11. repeat split; assumption.
Qed.

Lemma evaluate_value_intro (g : GridData) (p : Q * Q) (q00 q01 q10 q11 : Q) :
  well_formed g = true -> in_domain g p = true ->
  sample (gd_data g) (fst (cell_of g p)) (snd (cell_of g p)) = Val q00 ->
  sample (gd_data g) (fst (cell_of g p)) (snd (cell_of g p) + 1) = Val q01 ->
  sample (gd_data g) (fst (cell_of g p) + 1) (snd (cell_of g p)) = Val q10 ->
  sample (gd_data g) (fst (cell_of g p) + 1) (snd (cell_of g p) + 1) = Val q11 ->
  evaluate g p
  = Ok (Val (bilinear q00 q01 q10 q11
               ((fst p - coord (gd_x g) (snd (cell_of g p)))
                / (coord (gd_x g) 1 - coord (gd_x g) 0))
               ((snd p - coord (gd_y g) (fst (cell_of g p)))
                / (coord (gd_y g) 1 - coord (gd_y g) 0)))).
Proof.
  intros Hwf Hdom H00 H01 H10 H11.
  rewrite (wf_evaluate g Hwf p Hdom).
  assert (Hm : cell_missing (gd_data g) (fst (cell_of g p)) (snd (cell_of g p)) = false)
    by (apply cell_missing_false; now exists q00, q01, q10, q11).
  rewrite Hm. now rewrite (interpolant_values g _ _ _ _ q00 q01 q10 q11 H00 H01 H10 H11).
Qed.

Lemma bilinear_compat_all (q00 q01 q10 q11 ax ay r00 r01 r10 r11 bx by' : Q) :
  q00 == r00 -> q01 == r01 -> q10 == r10 -> q11 == r11 -> ax == bx -> ay == by' ->
  bilinear q00 q01 q10 q11 ax ay == bilinear r00 r01 r10 r11 bx by'.
Proof.
  intros E00 E01 E10 E11 Ex Ey. unfold bilinear.
  rewrite E00, E01, E10, E11, Ex, Ey. reflexivity.
Qed.

Lemma bilinear_field_exact (a b c d xj xj1 yi yi1 hx hy X Y : Q) :
  ~ hx == 0 -> ~ hy == 0 -> xj1 - xj == hx -> yi1 - yi == hy ->
  bilinear (bilinear_field a b c d xj yi) (bilinear_field a b c d xj1 yi)
           (bilinear_field a b c d xj yi1) (bilinear_field a b c d xj1 yi1)
           ((X - xj) / hx) ((Y - yi) / hy)
  == bilinear_field a b c d X Y.
Proof.
  intros Hx Hy Ex Ey.
  assert (E1 : xj1 == xj + hx) by lra. assert (E2 : yi1 == yi + hy) by lra.
  unfold bilinear, bilinear_field. rewrite E1, E2. field. split; assumption.
Qed.





(** X7. [evaluate] and [is_masked] read nothing but the two axes and the
    four corner samples of the resolved cell: two well-formed grids with
    the same axes whose samples agree on those four corners give the
    same results at the point, whatever the rest of the data and of the
    mask is. *)
Theorem X7_only_the_four_corners (g g' : GridData) (p : Q * Q) (i j : Z) :
  well_formed g = true -> well_formed g' = true ->
  gd_x g = gd_x g' -> gd_y g = gd_y g' ->
  _index_of_point (gd_x g) (gd_y g) (fst p) (snd p) = Ok (i, j) ->
  getitem g i j = getitem g' i j ->
  getitem g i (j + 1) = getitem g' i (j + 1) ->
  getitem g (i + 1) j = getitem g' (i + 1) j ->
  getitem g (i + 1) (j + 1) = getitem g' (i + 1) (j + 1) ->
  evaluate g p = evaluate g' p /\ is_masked g p = is_masked g' p.
Proof.
  intros Hwf Hwf' Ex Ey Hidx G00 G01 G10 G11.
  destruct (wf_parts g Hwf) as (Hx & Hy & _).
  destruct (index_of_point_inv _ _ _ _ _ _ Hx Hy Hidx) as (HX & HY & Hi & Hj).
  assert (Hdom : in_domain g p = true) by (apply in_domain_parts; split; assumption).
  assert (Hdom' : in_domain g' p = true).
  { apply in_domain_parts. rewrite <- Ex, <- Ey. split; assumption. }
  destruct (wf_cell_bounds g Hwf p Hdom) as [Bi Bj].
  assert (Ec : cell_of g' p = cell_of g p) by (unfold cell_of; now rewrite Ex, Ey).
  unfold cell_of in Bi, Bj. cbn [fst snd] in Bi, Bj. rewrite <- Hi in Bi. rewrite <- Hj in Bj.
  rewrite !(wf_getitem g Hwf) in G00, G01, G10, G11 by lia.
  rewrite !(wf_getitem g' Hwf') in G00, G01, G10, G11 by (rewrite <- ?Ex, <- ?Ey; lia).
  injection G00 as S00. injection G01 as S01. injection G10 as S10. injection G11 as S11.
  rewrite (wf_evaluate g Hwf p Hdom), (wf_evaluate g' Hwf' p Hdom').
  rewrite (wf_is_masked g Hwf p Hdom), (wf_is_masked g' Hwf' p Hdom').
  rewrite Ec. unfold cell_of. cbn [fst snd]. rewrite <- Hi, <- Hj.
  unfold interpolant, cell_value, cell_missing, corners. cbn [existsb fst snd].
  rewrite <- Ex, <- Ey, <- S00, <- S01, <- S10, <- S11. split; reflexivity.
Qed.

(** The grid with a gap and the same grid with the gap filled: the first
    cell does not see the difference. *)
Lemma X7_only_the_four_corners_witness :
  evaluate grid_gap (1 # 2, 1 # 2)
  = evaluate (mk_GridData [0; 1; 2] [0; 1]
                (mk_ndarray 3 (unmasked [[0; 1; 2]; [3; 4; 5]]))) (1 # 2, 1 # 2) /\
  is_masked grid_gap (1 # 2, 1 # 2)
  = is_masked (mk_GridData [0; 1; 2] [0; 1]
                 (mk_ndarray 3 (unmasked [[0; 1; 2]; [3; 4; 5]]))) (1 # 2, 1 # 2).
Proof.
  apply (X7_only_the_four_corners grid_gap _ (1 # 2, 1 # 2) 0 0); reflexivity.
Defined.

(** ** More on sub-region extraction *)

Lemma py_slice_all {A : Type} (l : list A) (b : Z) :
  b = Z.of_nat (length l) -> py_slice l 0 b = l.
Proof.
  intros ->. unfold py_slice, slice_len.
  rewrite !norm_bound_nonneg by lia. rewrite Nat2Z.id.
  cbn [Z.to_nat Nat.min skipn]. rewrite Nat.min_id, Nat.sub_0_r.
  apply firstn_all.
Qed.

Lemma nd_slice_all {A : Type} (a : ndarray A) (bi bj : Z) :
  rectangularb a = true ->
  bi = Z.of_nat (nrows a) -> bj = Z.of_nat (ncols a) ->
  nd_slice a 0 bi 0 bj = a.
Proof.
  intros Hrect -> ->. destruct a as [nc rs]. unfold nd_slice, nrows. cbn [rows ncols] in *.
  f_equal.
  - unfold slice_len. rewrite !norm_bound_nonneg by lia. rewrite Nat2Z.id.
    cbn [Z.to_nat]. lia.
  - rewrite py_slice_all by reflexivity.
    unfold rectangularb in Hrect. cbn [rows ncols] in Hrect.
    rewrite forallb_forall in Hrect.
    rewrite <- (map_id rs) at 2. apply map_ext_in.
    intros r Hr. apply py_slice_all. specialize (Hrect r Hr).
    apply Nat.eqb_eq in Hrect. now rewrite Hrect.
Qed.

Lemma grid_position_at_line (l : list Q) (X : Q) (k : Z) :
  axis_ok l = true -> uniformb l = true ->
  (0 <= k < Z.of_nat (length l))%Z -> X == coord l k ->
  grid_position l X == inject_Z k.
Proof.
  intros Hax Hun Hk E. apply Qle_antisym.
  - apply (grid_position_le l Hax Hun X k Hk). lra.
  - apply (grid_position_ge l Hax Hun X k Hk). lra.
Qed.

Lemma cell_index_at_line (l : list Q) (X : Q) (k : Z) :
  axis_ok l = true -> uniformb l = true ->
  (0 <= k < Z.of_nat (length l))%Z -> X == coord l k ->
  cell_index l X = Z.min k (Z.of_nat (length l) - 2).
Proof.
  intros Hax Hun Hk E.
  assert (H0 : coord l 0 <= X).
  { rewrite E. unfold coord at 2. apply (axis_first_le l Hax). lia. }
  rewrite (cell_index_position l Hax X H0).
  now rewrite (grid_position_at_line l X k Hax Hun Hk E), Qfloor_Z.
Qed.



Lemma uniform_from_intro (x0 h : Q) (l : list Q) (s : nat) :
  (forall k : nat, (k < length l)%nat ->
                   nth k l 0 == x0 + inject_Z (Z.of_nat (s + k)) * h) ->
  uniform_from x0 h s l = true.
Proof.
  revert s. induction l as [|a t IH]; intros s H; [reflexivity|].
  cbn [uniform_from]. apply andb_true_intro. split.
  - apply Qeq_bool_iff. specialize (H 0%nat ltac:(simpl; lia)).
    now rewrite Nat.add_0_r in H.
  - apply IH. intros k Hk. specialize (H (S k) ltac:(simpl; lia)).
    cbn [nth] in H. now replace (S s + k)%nat with (s + S k)%nat by lia.
Qed.

Lemma uniformb_intro (l : list Q) :
  (forall k : nat, (k < length l)%nat ->
     nth k l 0 == nth 0 l 0 + inject_Z (Z.of_nat k) * (nth 1 l 0 - nth 0 l 0)) ->
  uniformb l = true.
Proof.
  intros H. destruct l as [|x0 [|x1 t]]; try reflexivity.
  unfold uniformb. apply uniform_from_intro. intros k Hk.
  rewrite Nat.add_0_l. exact (H k Hk).
Qed.

(** A sub-range of a uniform axis is uniform. *)
Lemma sub_axis_uniform (l l' : list Q) (a b : Z) :
  axis_ok l = true -> uniformb l = true ->
  (0 <= a <= b)%Z -> (b <= Z.of_nat (length l) - 2)%Z ->
  length l' = Z.to_nat (b + 2 - a) ->
  (forall k : Z, (0 <= k < b + 2 - a)%Z -> coord l' k = coord l (a + k)) ->
  uniformb l' = true.
Proof.
  intros Hax Hun Hab Hbn Hlen Hcoord. apply uniformb_intro. intros k Hk.
  assert (E : forall n : nat, (n < length l')%nat ->
                nth n l' 0 == coord l 0 + inject_Z (a + Z.of_nat n) * (coord l 1 - coord l 0)).
  { intros n Hn.
    replace (nth n l' 0) with (coord l' (Z.of_nat n))
      by (unfold coord; now rewrite Nat2Z.id).
    rewrite Hcoord by lia. apply (uniform_coord l Hun). lia. }
  rewrite (E k Hk), (E 0%nat), (E 1%nat) by lia.
  rewrite !inject_Z_plus. cbn [Z.of_nat]. change (inject_Z (Z.pos 1)) with 1.
  change (inject_Z 0) with 0. ring.
Qed.



(** ** A sub-region of a sub-region *)

Lemma py_slice_map {A B : Type} (f : A -> B) (l : list A) (a b : Z) :
  py_slice (map f l) a b = map f (py_slice l a b).
Proof.
  unfold py_slice. now rewrite length_map, skipn_map, firstn_map.
Qed.

Lemma py_slice_slice {A : Type} (l : list A) (a b c d : Z) :
  (0 <= a)%Z -> (0 <= c <= d)%Z -> (a + d <= b)%Z -> (b <= Z.of_nat (length l))%Z ->
  py_slice (py_slice l a b) c d = py_slice l (a + c) (a + d).
Proof.
  intros Ha Hcd Hdb Hbl.
  destruct (slice_len_range (length l) a b) as [Na La]; [lia | lia |].
  destruct (slice_len_range (length l) (a + c) (a + d)) as [Nr Lr]; [lia | lia |].
  assert (Lab : length (py_slice l a b) = Z.to_nat (b - a))
    by (rewrite length_py_slice; exact La).
  destruct (slice_len_range (length (py_slice l a b)) c d) as [Nl Ll]; [lia | lia |].
  unfold py_slice at 1. rewrite Ll, Nl. unfold py_slice. rewrite La, Na, Lr, Nr.
  rewrite skipn_firstn_comm, skipn_skipn, firstn_firstn.
  f_equal; [lia | f_equal; lia].
Qed.

Lemma slice_len_slice (n : nat) (a b c d : Z) :
  (0 <= a)%Z -> (0 <= c <= d)%Z -> (a + d <= b)%Z -> (b <= Z.of_nat n)%Z ->
  slice_len (slice_len n a b) c d = slice_len n (a + c) (a + d).
Proof.
  intros Ha Hcd Hdb Hbn.
  destruct (slice_len_range n a b) as [_ La]; [lia | lia |].
  destruct (slice_len_range n (a + c) (a + d)) as [_ Lr]; [lia | lia |].
  destruct (slice_len_range (slice_len n a b) c d) as [_ Ll]; [lia | lia |].
  rewrite Ll, Lr. f_equal. lia.
Qed.

Lemma nd_slice_slice {A : Type} (q : ndarray A) (a b c d a' b' c' d' : Z) :
  rectangularb q = true ->
  (0 <= a)%Z -> (0 <= c <= d)%Z -> (a + d <= b)%Z -> (b <= Z.of_nat (nrows q))%Z ->
  (0 <= a')%Z -> (0 <= c' <= d')%Z -> (a' + d' <= b')%Z -> (b' <= Z.of_nat (ncols q))%Z ->
  nd_slice (nd_slice q a b a' b') c d c' d'
  = nd_slice q (a + c) (a + d) (a' + c') (a' + d').
Proof.
  intros Hrect Ha Hcd Hdb Hb Ha' Hcd' Hdb' Hb'.
  unfold nd_slice. cbn [rows ncols]. f_equal.
  - now apply slice_len_slice.
  - rewrite py_slice_map, map_map.
    rewrite py_slice_slice by (assumption || (unfold nrows in Hb; lia)).
    apply map_ext_in. intros r Hr. apply In_py_slice in Hr.
    unfold rectangularb in Hrect. rewrite forallb_forall in Hrect.
    specialize (Hrect r Hr). apply Nat.eqb_eq in Hrect.
    apply py_slice_slice; try assumption. now rewrite Hrect.
Qed.

(** The cell of a point ends strictly after it, except the last cell. *)
Lemma cell_upper_strict (l : list Q) (X : Q) :
  axis_ok l = true -> uniformb l = true -> in_axis l X = true ->
  X < coord l (cell_index l X + 1) \/ cell_index l X = (Z.of_nat (length l) - 2)%Z.
Proof.
  intros Hax Hun HX. apply in_axis_iff in HX as [H0 Hl].
  pose proof (axis_length l Hax) as Hlen.
  pose proof (cell_index_bounds l Hax X H0) as Hb.
  pose proof (cell_index_position l Hax X H0) as Hc.
  pose proof (Qlt_floor (grid_position l X)) as F2.
  destruct (Z.eq_dec (cell_index l X) (Z.of_nat (length l) - 2)) as [E|N]; [now right|].
  left. apply Qnot_le_lt. intros Hle.
  apply (grid_position_ge l Hax Hun X (cell_index l X + 1)) in Hle; [|lia].
  assert (Ef : cell_index l X = Qfloor (grid_position l X)) by lia.
  rewrite Ef in Hle. lra.
Qed.

(** Where [subset] succeeds with a rectangle that meets the domain: the
    cells of the clamped corners and the grid of the slices. *)
Lemma subset_result (g : GridData) (xmin ymin xmax ymax : Q) :
  well_formed g = true ->
  fst (clamp_low g xmin ymin) <= fst (clamp_high g xmax ymax) ->
  snd (clamp_low g xmin ymin) <= snd (clamp_high g xmax ymax) ->
  let imin := cell_index (gd_y g) (snd (clamp_low g xmin ymin)) in
  let imax := cell_index (gd_y g) (snd (clamp_high g xmax ymax)) in
  let jmin := cell_index (gd_x g) (fst (clamp_low g xmin ymin)) in
  let jmax := cell_index (gd_x g) (fst (clamp_high g xmax ymax)) in
  (0 <= imin <= imax)%Z /\ (imax <= Z.of_nat (length (gd_y g)) - 2)%Z /\
  (0 <= jmin <= jmax)%Z /\ (jmax <= Z.of_nat (length (gd_x g)) - 2)%Z /\
  in_domain g (clamp_low g xmin ymin) = true /\
  in_domain g (clamp_high g xmax ymax) = true /\
  subset g xmin ymin xmax ymax = Ok (subset_grid g imin imax jmin jmax).
Proof.
  intros Hwf HX HY.
  destruct (wf_parts g Hwf) as (Hx & Hy & Hnr & Hnc & Hrect).
  set (lo := clamp_low g xmin ymin) in *. set (hi := clamp_high g xmax ymax) in *.
  pose proof (py_max_spec xmin (coord (gd_x g) 0)) as [_ Lx].
  pose proof (py_max_spec ymin (coord (gd_y g) 0)) as [_ Ly].
  pose proof (py_min_spec xmax (last_coord (gd_x g))) as [_ Ux'].
  pose proof (py_min_spec ymax (last_coord (gd_y g))) as [_ Uy'].
  change (py_max xmin (coord (gd_x g) 0)) with (fst lo) in Lx.
  change (py_max ymin (coord (gd_y g) 0)) with (snd lo) in Ly.
  change (py_min xmax (last_coord (gd_x g))) with (fst hi) in Ux'.
  change (py_min ymax (last_coord (gd_y g))) with (snd hi) in Uy'.
  assert (Hlo : in_domain g lo = true).
  { apply in_domain_parts. split; apply in_axis_iff; lra. }
  assert (Hhi : in_domain g hi = true).
  { apply in_domain_parts. split; apply in_axis_iff; lra. }
  destruct (wf_cell_bounds g Hwf lo Hlo) as [Bil Bjl].
  destruct (wf_cell_bounds g Hwf hi Hhi) as [Bih Bjh].
  pose proof (cell_index_mono (gd_x g) Hx (fst lo) (fst hi) Lx HX) as Mj.
  pose proof (cell_index_mono (gd_y g) Hy (snd lo) (snd hi) Ly HY) as Mi.
  unfold cell_of in Bil, Bjl, Bih, Bjh. cbn [fst snd] in Bil, Bjl, Bih, Bjh.
  cbv zeta. repeat (split; [lia|]).
  split; [exact Hlo|]. split; [exact Hhi|].
  exact (subset_in g Hwf xmin ymin xmax ymax Hlo Hhi).
Qed.

Lemma py_max_left (a b : Q) : b <= a -> py_max a b = a.
Proof.
  intros H. unfold py_max. apply Qle_bool_iff in H. now rewrite H.
Qed.

Lemma py_min_left (a b : Q) : a <= b -> py_min a b = a.
Proof.
  intros H. unfold py_min. apply Qle_bool_iff in H. now rewrite H.
Qed.

Lemma subset_grid_of_subset_grid (g : GridData) (i1 I1 j1 J1 i2 I2 j2 J2 : Z) :
  well_formed g = true ->
  (0 <= i1)%Z -> (I1 <= Z.of_nat (length (gd_y g)) - 2)%Z ->
  (0 <= j1)%Z -> (J1 <= Z.of_nat (length (gd_x g)) - 2)%Z ->
  (0 <= i2 <= I2)%Z -> (I2 <= I1 - i1)%Z ->
  (0 <= j2 <= J2)%Z -> (J2 <= J1 - j1)%Z ->
  subset_grid (subset_grid g i1 I1 j1 J1) i2 I2 j2 J2
  = subset_grid g (i1 + i2) (i1 + I2) (j1 + j2) (j1 + J2).
Proof.
  intros Hwf Hi1 HI1 Hj1 HJ1 Hi2 HI2 Hj2 HJ2.
  destruct (wf_parts g Hwf) as (Hx & Hy & Hnr & Hnc & Hrect).
  unfold subset_grid. cbn [gd_x gd_y gd_data]. f_equal.
  - rewrite py_slice_slice by lia. f_equal. lia.
  - rewrite py_slice_slice by lia. f_equal. lia.
  - rewrite nd_slice_slice by (assumption || lia). f_equal; lia.
Qed.



(** ** Order of the cells *)

(** X11. On axes of at least two increasing coordinates the cell found by
    [_index_of_point] is monotone in each coordinate of the point: a point
    further right never lands in a column further left, a point further up
    never in a row further down. *)
Theorem X11_index_monotone (x y : list Q) (X Y X' Y' : Q) (i j i' j' : Z) :
  axis_ok x = true -> axis_ok y = true ->
  _index_of_point x y X Y = Ok (i, j) ->
  _index_of_point x y X' Y' = Ok (i', j') ->
  (X <= X' -> (j <= j')%Z) /\ (Y <= Y' -> (i <= i')%Z).
Proof.
  intros Hx Hy H H'.
  apply index_of_point_inv in H as (HX & HY & -> & ->); try assumption.
  apply index_of_point_inv in H' as (_ & _ & -> & ->); try assumption.
  apply in_axis_iff in HX as [HX _]. apply in_axis_iff in HY as [HY _].
  split; intros Hle.
  - now apply cell_index_mono.
  - now apply cell_index_mono.
Qed.

(** Two points of the all-ones grid, the second further right and up. *)
Lemma X11_index_monotone_witness :
  _index_of_point [0; 1; 2; 3] [0; 1; 2] (1 # 2) (1 # 2) = Ok (0, 0)%Z /\
  _index_of_point [0; 1; 2; 3] [0; 1; 2] (5 # 2) (3 # 2) = Ok (1, 2)%Z /\
  (0 <= 2)%Z /\ (0 <= 1)%Z.
Proof.
  do 2 (split; [reflexivity|]).
  destruct (X11_index_monotone [0; 1; 2; 3] [0; 1; 2] (1 # 2) (1 # 2) (5 # 2) (3 # 2)
              0 0 1 2 eq_refl eq_refl eq_refl eq_refl) as [Hj Hi].
  split; [apply Hj | apply Hi]; discriminate.
Defined.

(** ** Axes with fewer than two coordinates *)

Lemma py_get_1_length {A : Type} (l : list A) (v : A) :
  py_get l 1 = Ok v -> (2 <= length l)%nat.
Proof.
  destruct l as [|a [|b l]]; cbn; try discriminate. lia.
Qed.

Lemma index_of_point_short (x y : list Q) (X Y : Q) :
  (length x < 2)%nat \/ (length y < 2)%nat ->
  is_ok (_index_of_point x y X Y) = false.
Proof.
  intros H. destruct (_index_of_point x y X Y) as [[i j]|e] eqn:E; [|reflexivity].
  apply index_of_point_ok_inv in E as (x0 & x1 & y0 & y1 & _ & Ex & _ & Ey).
  apply py_get_1_length in Ex, Ey. lia.
Qed.

(** X12. The constructor takes axes of any length, but on a grid one of
    whose axes has fewer than two coordinates no point is ever located:
    [evaluate], [is_masked] and [subset] fail for every argument. *)
Theorem X12_short_axis_fails (g : GridData) (p : Q * Q) (xmin ymin xmax ymax : Q) :
  (length (gd_x g) < 2)%nat \/ (length (gd_y g) < 2)%nat ->
  is_ok (evaluate g p) = false /\
  is_ok (is_masked g p) = false /\
  is_ok (subset g xmin ymin xmax ymax) = false.
Proof.
  intros H. split; [|split].
  - pose proof (index_of_point_short _ _ (fst p) (snd p) H) as E.
    unfold evaluate, _bilinear_interp. cbv zeta.
    destruct (_index_of_point _ _ _ _); [discriminate|reflexivity].
  - pose proof (index_of_point_short _ _ (fst p) (snd p) H) as E.
    unfold is_masked.
    destruct (_index_of_point _ _ _ _); [discriminate|reflexivity].
  - unfold subset.
    destruct (py_get (gd_x g) 0) as [x0|]; [|reflexivity]. cbn [bind].
    destruct (py_get (gd_y g) 0) as [y0|]; [|reflexivity]. cbn [bind].
    destruct (py_get (gd_x g) (-1)) as [xl|]; [|reflexivity]. cbn [bind].
    destruct (py_get (gd_y g) (-1)) as [yl|]; [|reflexivity]. cbn [bind].
    cbv zeta.
    pose proof (index_of_point_short _ _ (py_max xmin x0) (py_max ymin y0) H) as E.
    destruct (_index_of_point _ _ _ _); [discriminate|reflexivity].
Qed.

(** A single column of two samples is accepted by the constructor, and
    nothing can be computed from it, not even at a sample point. *)
Lemma X12_short_axis_fails_witness :
  GridData_init [0] [0; 1] (PlainArray (mk_ndarray 1 [[1]; [2]])) None (Some 9)
  = Ok (mk_GridData [0] [0; 1] (mk_ndarray 1 [[(1, false)]; [(2, false)]])) /\
  is_ok (evaluate (mk_GridData [0] [0; 1] (mk_ndarray 1 [[(1, false)]; [(2, false)]]))
           (0, 0)) = false /\
  is_ok (is_masked (mk_GridData [0] [0; 1] (mk_ndarray 1 [[(1, false)]; [(2, false)]]))
           (0, 0)) = false /\
  is_ok (subset (mk_GridData [0] [0; 1] (mk_ndarray 1 [[(1, false)]; [(2, false)]]))
           0 0 0 1) = false.
Proof.
  split; [reflexivity|].
  apply (X12_short_axis_fails
           (mk_GridData [0] [0; 1] (mk_ndarray 1 [[(1, false)]; [(2, false)]]))
           (0, 0) 0 0 0 1).
  left. cbn. lia.
Defined.

(** ** Reading a sample back after construction *)

Lemma nth_error_combine {A B : Type} (l : list A) (m : list B) (n : nat) :
  nth_error (combine l m) n
  = match nth_error l n, nth_error m n with
    | Some a, Some b => Some (a, b)
    | _, _ => None
    end.
Proof.
  revert m n. induction l as [|a l IH]; intros m n.
  - destruct n; reflexivity.
  - destruct m as [|b m].
    + destruct n; cbn; [reflexivity|]. now destruct (nth_error l n).
    + destruct n; cbn; [reflexivity|]. apply IH.
Qed.

(** X13. A grid built from a plain array and a sentinel reads back, at
    every index the array accepts, [ma.masked] where the array holds the
    sentinel and the number of the array elsewhere; an index the array
    refuses is refused. *)
Theorem X13_sentinel_lookup (x y : list Q) (a : ndarray Q)
    (mask : option (ndarray bool)) (s : Q) (g : GridData) (i j : Z) :
  GridData_init x y (PlainArray a) mask (Some s) = Ok g ->
  getitem g i j = (v <- nd_get a i j ;; Ok (if Qeq_bool v s then Masked else Val v)).
Proof.
  unfold GridData_init. cbn [data_shape].
  destruct (shape a) as [ny nx].
  destruct (negb _ || negb _)%bool; [discriminate|].
  intros [= <-]. unfold getitem, ma_get, masked_equal. cbn [gd_data].
  rewrite nd_get_map.
  destruct (nd_get a i j) as [v|e]; [|reflexivity].
  cbn [bind]. unfold item_of. cbn [fst snd]. reflexivity.
Qed.

Lemma X13_sentinel_lookup_witness :
  getitem (mk_GridData [0; 1] [0; 1] (masked_equal (mk_ndarray 2 [[0; 9]; [2; 3]]) 9)) 0 (-1)
  = (v <- nd_get (mk_ndarray 2 [[0; 9]; [2; 3]]) 0 (-1) ;;
     Ok (if Qeq_bool v 9 then Masked else Val v)).
Proof.
  apply (X13_sentinel_lookup [0; 1] [0; 1] (mk_ndarray 2 [[0; 9]; [2; 3]]) None 9).
  reflexivity.
Defined.

(** X14. A grid built from a plain array and a mask of the same shape
    reads back, at every index, [ma.masked] where the mask is set and the
    number of the array elsewhere. *)
Theorem X14_mask_lookup (x y : list Q) (a : ndarray Q) (mk : ndarray bool)
    (g : GridData) (i j : Z) :
  shape mk = shape a ->
  GridData_init x y (PlainArray a) (Some mk) None = Ok g ->
  getitem g i j
  = (v <- nd_get a i j ;; b <- nd_get mk i j ;; Ok (if b : bool then Masked else Val v)).
Proof.
  intros Hs. unfold shape in Hs. injection Hs as Hr Hc.
  unfold GridData_init. cbn [data_shape].
  destruct (shape a) as [ny nx].
  destruct (negb _ || negb _)%bool; [discriminate|].
  unfold MaskedArray. rewrite Hr, Hc, !Nat.eqb_refl. cbn [andb bind].
  intros [= <-]. unfold getitem, ma_get. cbn [gd_data].
  unfold nd_get at 1. unfold nrows at 1. cbn [rows ncols].
  rewrite length_map, length_combine.
  unfold nrows in Hr. rewrite Hr, Nat.min_id.
  unfold nd_get, nrows. rewrite Hr, Hc.
  destruct (norm_index (length (rows a)) i) as [r|]; [|reflexivity].
  destruct (norm_index (ncols a) j) as [c|]; [|reflexivity].
  rewrite nth_error_map, nth_error_combine.
  destruct (nth_error (rows a) r) as [ra|]; [|reflexivity].
  destruct (nth_error (rows mk) r) as [rm|]; cbn [option_map fst snd].
  - unfold zip_rows. rewrite nth_error_combine.
    destruct (nth_error ra c) as [v|]; [|reflexivity].
    destruct (nth_error rm c) as [b|]; reflexivity.
  - destruct (nth_error ra c); reflexivity.
Qed.

Lemma X14_mask_lookup_witness :
  getitem grid_gap 0 2
  = (v <- nd_get (mk_ndarray 3 [[0; 1; 2]; [3; 4; 5]]) 0 2 ;;
     b <- nd_get (mk_ndarray 3 [[false; false; true]; [false; false; false]]) 0 2 ;;
     Ok (if b : bool then Masked else Val v)).
Proof.
  apply (X14_mask_lookup [0; 1; 2] [0; 1] (mk_ndarray 3 [[0; 1; 2]; [3; 4; 5]])
           (mk_ndarray 3 [[false; false; true]; [false; false; false]]));
    reflexivity.
Defined.
